(** * AI Quick Notes: the prompt dispatcher, the markdown-subset renderer
      and the saved-notes store, embedded from the TypeScript sources

    - [JS]            the part of the JavaScript runtime the sources call
                      (strings as UTF-16 code units, [startsWith], [slice],
                      [trim], [split], backtracking regular expressions);
    - [Renderer]      [renderFormattedText] of the [App] component;
    - [GeminiService] [getPrompt] and [processTextWithGemini] of
                      [services/geminiService.ts];
    - [App]           the state of the [App] component and its handlers. *)

From Stdlib Require Import String Ascii List NArith ZArith Bool Lia DecimalN.
Import ListNotations.

Set Implicit Arguments.

(* ===================================================================== *)
(** ** The JavaScript runtime the sources rely on *)
(* ===================================================================== *)

Module JS.

(** A JavaScript string is a sequence of UTF-16 code units. *)
Definition char := N.
Definition jsstring := list char.

(** String literals of the sources, written as Rocq strings. *)
Definition str (s : string) : jsstring :=
  map N_of_ascii (list_ascii_of_string s).

Definition LF : char := 10%N.
Definition CR : char := 13%N.
Definition STAR : char := 42%N.
Definition TICK : char := 96%N.

Definition eqb_char (a b : char) : bool := N.eqb a b.

Fixpoint eqb_str (a b : jsstring) : bool :=
  match a, b with
  | [], [] => true
  | x :: a', y :: b' => eqb_char x y && eqb_str a' b'
  | _, _ => false
  end.

(** [LineTerminator] of ECMAScript: LF, CR, U+2028, U+2029. *)
Definition isLineTerminator (c : char) : bool :=
  (N.eqb c 10 || N.eqb c 13 || N.eqb c 8232 || N.eqb c 8233)%N.

(** [WhiteSpace] of ECMAScript: TAB, VT, FF, SP, NBSP, ZWNBSP and the
    code points of category Zs. *)
Definition isWhiteSpace (c : char) : bool :=
  (N.eqb c 9 || N.eqb c 11 || N.eqb c 12 || N.eqb c 32 || N.eqb c 160
   || N.eqb c 5760 || (N.leb 8192 c && N.leb c 8202)
   || N.eqb c 8239 || N.eqb c 8287 || N.eqb c 12288 || N.eqb c 65279)%N.

(** What [String.prototype.trim] strips. *)
Definition isTrimmed (c : char) : bool := isWhiteSpace c || isLineTerminator c.

Fixpoint trimStart (s : jsstring) : jsstring :=
  match s with
  | [] => []
  | c :: s' => if isTrimmed c then trimStart s' else s
  end.

Definition trimEnd (s : jsstring) : jsstring := rev (trimStart (rev s)).

Definition trim (s : jsstring) : jsstring := trimEnd (trimStart s).

(** Whether the first, or the last, code unit of a string is one that
    [trim] strips. *)
Definition startsTrimmed (s : jsstring) : bool :=
  match s with
  | [] => false
  | c :: _ => isTrimmed c
  end.

Definition endsTrimmed (s : jsstring) : bool := startsTrimmed (rev s).

(** [s.startsWith(p)] *)
Fixpoint startsWith (s p : jsstring) {struct p} : bool :=
  match p with
  | [] => true
  | a :: p' =>
      match s with
      | [] => false
      | b :: s' => eqb_char b a && startsWith s' p'
      end
  end.

(** [s.endsWith(p)]: the comparison starts at [length s - length p], and
    fails when that is negative. *)
Definition endsWith (s p : jsstring) : bool :=
  (length p <=? length s)%nat && eqb_str (skipn (length s - length p) s) p.

(** [s.includes(p)] *)
Fixpoint includes (s p : jsstring) : bool :=
  startsWith s p ||
  match s with
  | [] => false
  | _ :: s' => includes s' p
  end.

(** [s.slice(a, b)]: a negative index counts from the end; both are clamped
    to the string. *)
Definition clampIndex (len i : Z) : Z :=
  if (i <? 0)%Z then Z.max (len + i) 0 else Z.min i len.

Definition slice (s : jsstring) (a b : Z) : jsstring :=
  let len := Z.of_nat (length s) in
  let from := clampIndex len a in
  let to := clampIndex len b in
  let span := Z.max (to - from) 0 in
  firstn (Z.to_nat span) (skipn (Z.to_nat from) s).

(** [s.substring(a)] with [a >= 0]. *)
Definition substring (s : jsstring) (a : nat) : jsstring := skipn a s.

(** [s.split(sep)] for a separator of one code unit. *)
Fixpoint splitChar (sep : char) (s : jsstring) : list jsstring :=
  match s with
  | [] => [[]]
  | c :: s' =>
      if eqb_char c sep then [] :: splitChar sep s'
      else match splitChar sep s' with
           | l :: ls => (c :: l) :: ls
           | [] => [[c]]
           end
  end.

(** [a.map((x, i) => f x i)] *)
Fixpoint mapiFrom (A B : Type) (f : A -> nat -> B) (i : nat) (l : list A) : list B :=
  match l with
  | [] => []
  | x :: l' => f x i :: mapiFrom f (S i) l'
  end.

Definition mapi (A B : Type) (f : A -> nat -> B) (l : list A) : list B :=
  mapiFrom f 0 l.

(** *** Regular expressions

    The fragment of the pattern language the sources use: one code unit,
    [.], a class matching everything ([[\s\S]]), the lazy star of such an
    atom, concatenation and ordered alternation.  The matcher follows the
    backtracking semantics of ECMAScript: a matcher takes the rest of the
    input and a continuation; an alternation tries its left branch first
    and its right branch only when the left one, continuation included,
    fails; [x*?] first tries the continuation and consumes one more [x]
    only when that fails. *)

Inductive atom :=
| Lit (c : char)       (* an escaped or literal character *)
| Dot                  (* [.], without the [s] flag *)
| Any.                 (* [[\s\S]] *)

Inductive regex :=
| One (a : atom)
| LazyStar (a : atom)
| Seq (r1 r2 : regex)
| Alt (r1 r2 : regex).

Definition atomMatches (a : atom) (c : char) : bool :=
  match a with
  | Lit x => eqb_char c x
  | Dot => negb (isLineTerminator c)
  | Any => true
  end.

(** The result of a matcher is the number of code units of the match. *)
Fixpoint lazyStar (a : atom) (k : jsstring -> option nat) (s : jsstring)
  : option nat :=
  match k s with
  | Some n => Some n
  | None =>
      match s with
      | [] => None
      | c :: s' =>
          if atomMatches a c then option_map S (lazyStar a k s') else None
      end
  end.

Fixpoint matcher (r : regex) (s : jsstring) (k : jsstring -> option nat)
  : option nat :=
  match r with
  | One a =>
      match s with
      | [] => None
      | c :: s' => if atomMatches a c then option_map S (k s') else None
      end
  | LazyStar a => lazyStar a k s
  | Seq r1 r2 => matcher r1 s (fun s' => matcher r2 s' k)
  | Alt r1 r2 =>
      match matcher r1 s k with
      | Some n => Some n
      | None => matcher r2 s k
      end
  end.

(** A sticky match at the start of [s]: the length of the match. *)
Definition matchAt (r : regex) (s : jsstring) : option nat :=
  matcher r s (fun _ => Some 0).

(** [s.split(/(r)/)], the pattern being one capture group around [r]
    ([RegExp.prototype[Symbol.split]] without a limit).  [pending] holds, in
    reverse, the code units between the end [p] of the last match and the
    position [q] under test; [s] is the input from [q] on.  A match ending
    at [p] (an empty match right after the previous one) counts as a
    failure.  On a match the text before it and the captured text are
    pushed and the scan resumes after the match.  [fuel] bounds the number
    of iterations of the loop: an iteration that does not advance [q]
    empties [pending], and the next one advances. *)
Fixpoint splitLoop (r : regex) (fuel : nat) (pending s : jsstring)
  : list jsstring :=
  match fuel with
  | O => []
  | S fuel' =>
      match s with
      | [] => [rev pending]
      | c :: s' =>
          match matchAt r s with
          | None => splitLoop r fuel' (c :: pending) s'
          | Some n =>
              match n, pending with
              | O, [] => splitLoop r fuel' (c :: pending) s'
              | _, _ =>
                  rev pending :: firstn n s
                    :: splitLoop r fuel' [] (skipn n s)
              end
          end
      end
  end.

(** The number of iterations the loop needs at most from a given point. *)
Definition splitMeasure (pending s : jsstring) : nat :=
  2 * length s + match pending with [] => 1 | _ => 2 end.

(** An empty input is split into [[""]] unless the pattern matches the empty
    string, in which case the result is empty. *)
Definition splitRegex (r : regex) (s : jsstring) : list jsstring :=
  match s with
  | [] => match matchAt r [] with Some _ => [] | None => [[]] end
  | _ => splitLoop r (S (2 * length s)) [] s
  end.

(** [a.join(sep)] for a separator of one code unit. *)
Fixpoint joinChar (sep : char) (ls : list jsstring) : jsstring :=
  match ls with
  | [] => []
  | [l] => l
  | l :: ls' => l ++ sep :: joinChar sep ls'
  end.

(** The text holds no code unit [d]. *)
Definition noneOf (d : char) (s : jsstring) : bool :=
  forallb (fun c => negb (eqb_char c d)) s.

(** The text holds no line terminator: [.] matches each of its code units. *)
Definition oneLine (s : jsstring) : bool :=
  forallb (fun c => negb (isLineTerminator c)) s.

End JS.

(* ===================================================================== *)
(** ** The markdown-subset renderer *)
(* ===================================================================== *)

Module Renderer.
Import JS.

(** One line of the fall-through case: the text of the line and whether a
    [<br />] follows it. *)
Record line := { content : jsstring; br : bool }.

(** What [renderFormattedText] returns for one section: one of the five
    elements, or the array of line fragments of the last [return].  The
    React keys are left out. *)
Inductive node :=
| Strong (t : jsstring)        (* [<strong>] *)
| Em (t : jsstring)            (* [<em>] *)
| Pre (t : jsstring)           (* [<pre>] *)
| Code (t : jsstring)          (* [<code>] *)
| Li (t : jsstring)            (* [<li>] *)
| Lines (ls : list line).

(** The pattern of [text.split]:
    [/(\*.*?\*|\*\*.*?\*\*|`.*?`|```[\s\S]*?```)/g],
    its four alternatives in the order of the source. *)
Definition italicPattern : regex :=
  Seq (One (Lit STAR)) (Seq (LazyStar Dot) (One (Lit STAR))).

Definition boldPattern : regex :=
  Seq (One (Lit STAR)) (Seq (One (Lit STAR))
    (Seq (LazyStar Dot) (Seq (One (Lit STAR)) (One (Lit STAR))))).

Definition inlineCodePattern : regex :=
  Seq (One (Lit TICK)) (Seq (LazyStar Dot) (One (Lit TICK))).

Definition fencePattern : regex :=
  Seq (One (Lit TICK)) (Seq (One (Lit TICK)) (Seq (One (Lit TICK))
    (Seq (LazyStar Any)
      (Seq (One (Lit TICK)) (Seq (One (Lit TICK)) (One (Lit TICK))))))).

Definition sectionPattern : regex :=
  Alt italicPattern (Alt boldPattern (Alt inlineCodePattern fencePattern)).

(** The callback of [sections.map]. *)
Definition renderSection (section : jsstring) : node :=
  if startsWith section (str "**") && endsWith section (str "**") then
    Strong (slice section 2 (-2))
  else if startsWith section (str "*") && endsWith section (str "*") then
    Em (slice section 1 (-1))
  else if startsWith section (str "```") && endsWith section (str "```") then
    Pre (trim (slice section 3 (-3)))
  else if startsWith section (str "`") && endsWith section (str "`") then
    Code (slice section 1 (-1))
  else if startsWith section (str "* ") then
    Li (substring section 2)
  else if startsWith section (str "- ") then
    Li (substring section 2)
  else
    let lines := splitChar LF section in
    Lines (mapi (fun l lineIndex =>
                   {| content := l;
                      br := (lineIndex <? length lines - 1)%nat |})
                lines).

Definition renderFormattedText (text : jsstring) : list node :=
  map renderSection (splitRegex sectionPattern text).

(** A run of text without markup, as one line without a break. *)
Definition plain (t : jsstring) : node :=
  Lines [{| content := t; br := false |}].

(** The inputs of the two examples of the specification. *)
Definition boldItalicCode : jsstring := str "**bold** and *italic* and `code`".
Definition twoBullets : jsstring := str "* one" ++ [LF] ++ str "* two".

(** A node other than a bold element with text or a code block. *)
Definition emptyBoldNoBlock (n : node) : bool :=
  match n with
  | Strong (_ :: _) | Pre _ => false
  | _ => true
  end.

(** The two characters that open and close a span. *)
Definition delimiter (d : char) : Prop := d = STAR \/ d = TICK.

(** A section that starts with a doubled delimiter is that doubled
    delimiter and nothing more. *)
Definition wellDelimited (section : jsstring) : Prop :=
  forall d, delimiter d -> startsWith section [d; d] = true -> section = [d; d].

(** The continuation of [.*?] in the italic and inline-code alternatives:
    the closing delimiter, then the end of the pattern. *)
Definition closing (d : char) (s : jsstring) : option nat :=
  matcher (One (Lit d)) s (fun _ => Some 0).

(** An alternative of the shape [d.*?d]. *)
Definition spanPattern (d : char) : regex :=
  Seq (One (Lit d)) (Seq (LazyStar Dot) (One (Lit d))).

(** The invariant of the scan: the text between the last match and the
    position under test does not start with a doubled delimiter (the scan
    would have matched there). *)
Definition unmatchedSoFar (pending s : jsstring) : Prop :=
  pending <> [] ->
  forall d, delimiter d -> startsWith (rev pending ++ s) [d; d] = false.


(** The text holds neither a star nor a backtick. *)
Definition noDelimiter (s : jsstring) : bool := noneOf STAR s && noneOf TICK s.

(** The sections at the odd positions of a split: the captured spans. *)
Fixpoint spansOf (sections : list jsstring) : list jsstring :=
  match sections with
  | _ :: span :: rest => span :: spansOf rest
  | _ => []
  end.

(** A delimiter, a line without that delimiter, and the delimiter again. *)
Definition isSpan (section : jsstring) : Prop :=
  exists d mid,
    delimiter d /\ section = d :: mid ++ [d]
    /\ noneOf d mid = true /\ oneLine mid = true.

(** The flags of the line fragments of a section of [n] lines: a break
    after each line but the last. *)
Definition breaks (n : nat) : list bool := repeat true (n - 1) ++ [false].

End Renderer.

(* ===================================================================== *)
(** ** The prompt dispatcher: [services/geminiService.ts] *)
(* ===================================================================== *)

Module GeminiService.
Import JS.

(** Modelled from the spec: [types.ts], which declares the enum
    [ProcessMode], is not among the sources; the spec gives its three
    members.  The component shows a member as a button label, so the
    members are strings and none of them is falsy. *)
Inductive ProcessMode := SUMMARIZE | KEY_POINTS | SIMPLIFY.

(** The value a caller passes for [mode] at run time, where the type
    annotation is not enforced: a member of the enum, or a value equal to
    none of them. *)
Inductive modeValue :=
| Member (m : ProcessMode)
| NotMember (tag : N).

(** Values that are not [Error] objects. *)
Inductive primitive :=
| Undefined
| Null
| Boolean (b : bool)
| Number (z : Z)
| StringValue (s : jsstring).

(** What a [throw] or a rejected promise carries. *)
Inductive thrown :=
| ErrorObject (message : jsstring)       (* [new Error(message)] *)
| OtherValue (v : primitive).

(** A call either returns or throws; an awaited promise either resolves or
    rejects. *)
Inductive completion (A : Type) :=
| Normal (a : A)
| Throw (e : thrown).
Arguments Normal {A} a.
Arguments Throw {A} e.

Definition bind (A B : Type) (c : completion A) (k : A -> completion B)
  : completion B :=
  match c with
  | Normal a => k a
  | Throw e => Throw e
  end.

Notation "x <- c ;; k" := (bind c (fun x => k))
  (at level 61, c at next level, right associativity).

(** [try { body } catch (error) { handler }] *)
Definition tryCatch (A : Type) (body : completion A)
  (handler : thrown -> completion A) : completion A :=
  match body with
  | Normal a => Normal a
  | Throw error => handler error
  end.

(** The check at the top of the module, run when it is loaded. *)
Definition loadModule (apiKey : option jsstring) : completion unit :=
  match apiKey with
  | None | Some [] =>
      Throw (ErrorObject (str "API_KEY environment variable is not set."))
  | Some _ => Normal tt
  end.

(** The generation boundary: the request [generateContent] receives and the
    [text] of the response it resolves with ([undefined] is [None]). *)
Record request := { model : jsstring; contents : jsstring }.
Record response := { response_text : option jsstring }.
Definition client := request -> completion response.

(** The text of the three templates before the input. *)
Definition summarizeDirective : jsstring :=
  str "Generate a concise summary of the following text. The summary should capture the main ideas and be significantly shorter than the original text:".

Definition keyPointsDirective : jsstring :=
  str "Extract the key points from the following text and present them as a clear, scannable bulleted list. Each bullet point should represent a distinct, important idea:".

Definition simplifyDirective : jsstring :=
  str "Simplify the following text. Rephrase complex sentences, explain difficult words, and break down complicated concepts to make the content easy for a general audience to understand:".

(** [`${directive}\n\n---\n${text}\n---`] *)
Definition template (directive text : jsstring) : jsstring :=
  directive ++ [LF; LF] ++ str "---" ++ [LF] ++ text ++ [LF] ++ str "---".

Definition getPrompt (mode : modeValue) (text : jsstring)
  : completion jsstring :=
  match mode with
  | Member SUMMARIZE => Normal (template summarizeDirective text)
  | Member KEY_POINTS => Normal (template keyPointsDirective text)
  | Member SIMPLIFY => Normal (template simplifyDirective text)
  | NotMember _ => Throw (ErrorObject (str "Invalid process mode"))
  end.

Definition errorPrefix : jsstring := str "An error occurred:".

Definition emptyResponseMessage : jsstring :=
  str "Received an empty response from the AI.".

Definition unknownErrorMessage : jsstring :=
  str "An unknown error occurred while contacting the AI.".

(** The [catch] block ([console.error] only writes to the console). *)
Definition onError (error : thrown) : completion jsstring :=
  match error with
  | ErrorObject message => Normal (str "An error occurred: " ++ message)
  | OtherValue _ => Normal unknownErrorMessage
  end.

Definition processTextWithGemini (ai : client) (text : jsstring)
  (mode : modeValue) : completion jsstring :=
  tryCatch
    (prompt <- getPrompt mode text ;;
     response <- ai {| model := str "gemini-2.5-flash"; contents := prompt |} ;;
     match response_text response with
     | None | Some [] =>                                (* [!resultText] *)
         Throw (ErrorObject emptyResponseMessage)
     | Some resultText => Normal (trim resultText)
     end)
    onError.

(** The template of a member, and the words of the specification for it:
    summarize; key points as a bulleted list; simplify for a general
    audience. *)
Definition directive (m : ProcessMode) : jsstring :=
  match m with
  | SUMMARIZE => summarizeDirective
  | KEY_POINTS => keyPointsDirective
  | SIMPLIFY => simplifyDirective
  end.

Definition directivePhrases (m : ProcessMode) : list jsstring :=
  match m with
  | SUMMARIZE => [str "concise summary"]
  | KEY_POINTS => [str "key points"; str "bulleted list"]
  | SIMPLIFY => [str "Simplify"; str "general audience"]
  end.

Definition otherModes (m : ProcessMode) : list ProcessMode :=
  match m with
  | SUMMARIZE => [KEY_POINTS; SIMPLIFY]
  | KEY_POINTS => [SUMMARIZE; SIMPLIFY]
  | SIMPLIFY => [SUMMARIZE; KEY_POINTS]
  end.

(** The request [processTextWithGemini] sends for a prompt. *)
Definition requestFor (prompt : jsstring) : request :=
  {| model := str "gemini-2.5-flash"; contents := prompt |}.

(** What the [catch] block makes of an [Error] with the given message. *)
Definition failure (message : jsstring) : jsstring :=
  str "An error occurred: " ++ message.

(** Boundaries for the examples: one resolving with a fixed payload, one
    rejecting with a fixed value. *)
Definition resolvingWith (t : option jsstring) : client :=
  fun _ => Normal {| response_text := t |}.

Definition rejectingWith (e : thrown) : client := fun _ => Throw e.

End GeminiService.

(* ===================================================================== *)
(** ** The [App] component: state and handlers *)
(* ===================================================================== *)

Module App.
Import JS GeminiService.

Record SavedNote := {
  id : jsstring;
  input : jsstring;
  output : jsstring;
  mode : ProcessMode;
  timestamp : jsstring
}.

(** A toast, without its icon. *)
Record Toast := { toastId : N; message : jsstring }.

(** The state variables of the component that the handlers below touch,
    and the slot ['ai-quick-notes'] of the local store.  The slot holds
    the collection that [JSON.stringify] was given; [None] is an absent
    slot. *)
Record state := {
  inputText : jsstring;
  outputText : jsstring;
  isLoading : bool;
  error : jsstring;
  currentMode : option ProcessMode;
  savedNotes : list SavedNote;
  toasts : list Toast;
  storage : option (list SavedNote)
}.

Definition initialState (stored : option (list SavedNote)) : state :=
  {| inputText := []; outputText := []; isLoading := false; error := [];
     currentMode := None; savedNotes := []; toasts := [];
     storage := stored |}.

Definition setInputText (v : jsstring) (st : state) : state :=
  {| inputText := v; outputText := outputText st; isLoading := isLoading st;
     error := error st; currentMode := currentMode st;
     savedNotes := savedNotes st; toasts := toasts st;
     storage := storage st |}.

Definition setOutputText (v : jsstring) (st : state) : state :=
  {| inputText := inputText st; outputText := v; isLoading := isLoading st;
     error := error st; currentMode := currentMode st;
     savedNotes := savedNotes st; toasts := toasts st;
     storage := storage st |}.

Definition setIsLoading (v : bool) (st : state) : state :=
  {| inputText := inputText st; outputText := outputText st; isLoading := v;
     error := error st; currentMode := currentMode st;
     savedNotes := savedNotes st; toasts := toasts st;
     storage := storage st |}.

Definition setError (v : jsstring) (st : state) : state :=
  {| inputText := inputText st; outputText := outputText st;
     isLoading := isLoading st; error := v; currentMode := currentMode st;
     savedNotes := savedNotes st; toasts := toasts st;
     storage := storage st |}.

Definition setCurrentMode (v : option ProcessMode) (st : state) : state :=
  {| inputText := inputText st; outputText := outputText st;
     isLoading := isLoading st; error := error st; currentMode := v;
     savedNotes := savedNotes st; toasts := toasts st;
     storage := storage st |}.

Definition setToasts (f : list Toast -> list Toast) (st : state) : state :=
  {| inputText := inputText st; outputText := outputText st;
     isLoading := isLoading st; error := error st;
     currentMode := currentMode st; savedNotes := savedNotes st;
     toasts := f (toasts st); storage := storage st |}.

(** The effect that depends on [savedNotes]:
    [localStorage.setItem('ai-quick-notes', JSON.stringify(savedNotes))]. *)
Definition persistEffect (st : state) : state :=
  {| inputText := inputText st; outputText := outputText st;
     isLoading := isLoading st; error := error st;
     currentMode := currentMode st; savedNotes := savedNotes st;
     toasts := toasts st; storage := Some (savedNotes st) |}.

(** [setSavedNotes(prev => f(prev))]: both updaters of the sources build a
    new array, so the effect runs after each of them. *)
Definition setSavedNotes (f : list SavedNote -> list SavedNote) (st : state)
  : state :=
  persistEffect
    {| inputText := inputText st; outputText := outputText st;
       isLoading := isLoading st; error := error st;
       currentMode := currentMode st; savedNotes := f (savedNotes st);
       toasts := toasts st; storage := storage st |}.

(** [showToast], up to the timer that removes the toast three seconds
    later; [now] is the value of [Date.now()]. *)
Definition showToast (now : N) (msg : jsstring) (st : state) : state :=
  setToasts (fun prev => prev ++ [{| toastId := now; message := msg |}]) st.

(** [n.toString()] for a non-negative integer: its decimal digits. *)
Fixpoint digits (u : Decimal.uint) : jsstring :=
  match u with
  | Decimal.Nil => []
  | Decimal.D0 u' => 48%N :: digits u'
  | Decimal.D1 u' => 49%N :: digits u'
  | Decimal.D2 u' => 50%N :: digits u'
  | Decimal.D3 u' => 51%N :: digits u'
  | Decimal.D4 u' => 52%N :: digits u'
  | Decimal.D5 u' => 53%N :: digits u'
  | Decimal.D6 u' => 54%N :: digits u'
  | Decimal.D7 u' => 55%N :: digits u'
  | Decimal.D8 u' => 56%N :: digits u'
  | Decimal.D9 u' => 57%N :: digits u'
  end.

Definition numberToString (n : N) : jsstring := digits (N.to_uint n).

Definition isEmpty (s : jsstring) : bool :=
  match s with [] => true | _ => false end.

(** [handleProcess]; [apiKey] is [process.env.API_KEY]. *)
Definition handleProcess (apiKey : option jsstring) (ai : client)
  (mode : ProcessMode) (st : state) : completion state :=
  if isEmpty (trim (inputText st)) then
    Normal (setError (str "Please enter some text to process.") st)
  else
    match apiKey with
    | None | Some [] =>
        Normal (setIsLoading false
          (setError (str "API key is not configured. Please set the API_KEY environment variable.") st))
    | Some _ =>
        let st1 :=
          setCurrentMode (Some mode)
            (setOutputText [] (setError [] (setIsLoading true st))) in
        result <- processTextWithGemini ai (inputText st) (Member mode) ;;
        Normal (setIsLoading false
          (if startsWith result (str "An error occurred:")
           then setError result st1
           else setOutputText result st1))
    end.

(** [handleSaveNote]; [now] and [toastNow] are the two readings of
    [Date.now()], [localeNow] is [new Date().toLocaleString()]. *)
Definition handleSaveNote (now : N) (localeNow : jsstring) (toastNow : N)
  (st : state) : state :=
  match outputText st, currentMode st with
  | [], _ | _, None => st              (* [!outputText || !currentMode] *)
  | _ :: _, Some m =>
      let newNote :=
        {| id := numberToString now;
           input := inputText st;
           output := outputText st;
           mode := m;
           timestamp := localeNow |} in
      showToast toastNow (str "Note saved!")
        (setSavedNotes (fun prev => newNote :: prev) st)
  end.

Definition handleDeleteNote (noteId : jsstring) (toastNow : N) (st : state)
  : state :=
  showToast toastNow (str "Note deleted")
    (setSavedNotes
       (fun prev => filter (fun note => negb (eqb_str (id note) noteId)) prev)
       st).

(** A state in which the user has typed [t]. *)
Definition typed (t : jsstring) : state := setInputText t (initialState None).

(** A state after a successful run, with one note saved before. *)
Definition oldNote : SavedNote :=
  {| id := str "1700000000000"; input := str "old text";
     output := str "old summary"; mode := SIMPLIFY;
     timestamp := str "11/14/2023, 10:13:20 PM" |}.

Definition afterSuccess : state :=
  {| inputText := str "hello"; outputText := str "A summary.";
     isLoading := false; error := []; currentMode := Some SUMMARIZE;
     savedNotes := [oldNote]; toasts := []; storage := Some [oldNote] |}.


(** The timer of [showToast], three seconds later:
    [setToasts(prev => prev.filter(t => t.id !== id))]. *)
Definition expireToast (toast : N) (st : state) : state :=
  setToasts (filter (fun t => negb (N.eqb (toastId t) toast))) st.

(** The first render: the first effect reads the slot and, when it holds
    something, sets the notes to what [JSON.parse] gives; the second
    effect, still with the empty collection of the first render, writes
    the slot; the render that follows the update runs the second effect
    again. *)
Definition mount (stored : option (list SavedNote)) : state :=
  let st0 := initialState stored in
  let storedNotes := storage st0 in
  let st1 := persistEffect st0 in
  match storedNotes with
  | Some parsed => setSavedNotes (fun _ => parsed) st1
  | None => st1
  end.

(** The slot of the store holds the notes of the state. *)
Definition inSync (st : state) : Prop := storage st = Some (savedNotes st).

(** The identifiers are distinct and each is the reading of a clock
    before [now]. *)
Definition idsBefore (now : N) (st : state) : Prop :=
  NoDup (map id (savedNotes st))
  /\ Forall (fun note => exists t, (t < now)%N /\ id note = numberToString t)
       (savedNotes st).

(** [navigator]: [share] is absent in browsers without the Web Share API;
    each call resolves or rejects.  [navigator.clipboard] is taken to be
    present, as its type declares. *)
Record ShareData := { shareTitle : jsstring; shareText : jsstring }.

Record Navigator := {
  share : option (ShareData -> completion unit);
  writeText : jsstring -> completion unit
}.

(** The calls made on [navigator], in order. *)
Inductive call :=
| ShareCall (d : ShareData)
| WriteTextCall (t : jsstring).

(** [handleCopyToClipboard]: the toast is shown by the [then] callback,
    so only when [writeText] resolves. *)
Definition handleCopyToClipboard (nav : Navigator) (toastNow : N)
  (textToCopy : jsstring) (w : state * list call) : state * list call :=
  let (st, calls) := w in
  match writeText nav textToCopy with
  | Normal _ =>
      (showToast toastNow (str "Copied to clipboard!") st,
       calls ++ [WriteTextCall textToCopy])
  | Throw _ => (st, calls ++ [WriteTextCall textToCopy])
  end.

(** [handleShare]: without [navigator.share] the [try] block throws, and
    the [catch] block copies; a rejected [share] is caught the same way. *)
Definition handleShare (nav : Navigator) (toastNow : N)
  (textToShare title : jsstring) (w : state * list call)
  : state * list call :=
  let shareData := {| shareTitle := title; shareText := textToShare |} in
  match share nav with
  | Some shareFn =>
      let w1 := (fst w, snd w ++ [ShareCall shareData]) in
      match shareFn shareData with
      | Normal _ => w1
      | Throw _ => handleCopyToClipboard nav toastNow textToShare w1
      end
  | None => handleCopyToClipboard nav toastNow textToShare w
  end.

(** Browsers for the examples. *)
Definition browserWithoutShare : Navigator :=
  {| share := None; writeText := fun _ => Normal tt |}.

End App.

(* ===================================================================== *)
(** ** Facts about the runtime model *)
(* ===================================================================== *)

Module JSFacts.
Import JS.

Lemma eqb_char_eq (a b : char) : eqb_char a b = true <-> a = b.
Proof. unfold eqb_char. apply N.eqb_eq. Qed.

Lemma eqb_char_refl (a : char) : eqb_char a a = true.
Proof. apply eqb_char_eq; reflexivity. Qed.

Lemma eqb_str_eq (a b : jsstring) : eqb_str a b = true <-> a = b.
Proof.
  revert b; induction a as [|x a IH]; intros [|y b]; simpl;
    try (split; [discriminate | intro H; inversion H]); [tauto|].
  rewrite andb_true_iff, eqb_char_eq, IH.
  split; [intros [-> ->]; reflexivity | intro H; inversion H; auto].
Qed.

Lemma startsWith_app (s p : jsstring) :
  startsWith s p = true <-> exists rest, s = p ++ rest.
Proof.
  revert s; induction p as [|a p IH]; intros s; simpl.
  - split; [intros _; exists s; reflexivity | reflexivity].
  - destruct s as [|b s].
    + split; [discriminate | intros [rest H]; discriminate].
    + rewrite andb_true_iff, eqb_char_eq, IH. split.
      * intros [-> [rest ->]]. exists rest; reflexivity.
      * intros [rest H]. inversion H; subst. split; [reflexivity|].
        exists rest; reflexivity.
Qed.

Lemma startsWith_prefix (s t p : jsstring) :
  startsWith s p = true -> startsWith (s ++ t) p = true.
Proof.
  rewrite !startsWith_app. intros [rest ->].
  exists (rest ++ t). rewrite app_assoc. reflexivity.
Qed.


(** [includes] finds the substrings. *)
Lemma includes_spec (s p : jsstring) :
  includes s p = true <-> exists pre post, s = pre ++ p ++ post.
Proof.
  induction s as [|x s IH]; simpl.
  - rewrite orb_false_r, startsWith_app. split.
    + intros [rest H]. exists [], rest. exact H.
    + intros (pre & post & H). destruct pre; [|discriminate].
      exists post. exact H.
  - rewrite orb_true_iff, startsWith_app, IH. split.
    + intros [[rest H] | (pre & post & H)].
      * exists [], rest. exact H.
      * exists (x :: pre), post. simpl. f_equal. exact H.
    + intros (pre & post & H). destruct pre as [|y pre].
      * left. exists post. exact H.
      * right. simpl in H. inversion H. exists pre, post. reflexivity.
Qed.

Lemma includes_app_l (a b p : jsstring) :
  includes a p = true -> includes (a ++ b) p = true.
Proof.
  rewrite !includes_spec. intros (pre & post & ->).
  exists pre, (post ++ b). rewrite <- !app_assoc. reflexivity.
Qed.

(** [trimStart] removes a run of stripped code units and stops at the
    first one that is not. *)
Lemma trimStart_spec (s : jsstring) :
  exists pre,
    s = pre ++ trimStart s /\ forallb isTrimmed pre = true
    /\ startsTrimmed (trimStart s) = false.
Proof.
  induction s as [|c s (pre & E & Hpre & Hs)]; simpl.
  - exists []. auto.
  - destruct (isTrimmed c) eqn:T.
    + exists (c :: pre). simpl. rewrite T, Hpre. repeat split; auto.
      f_equal; exact E.
    + exists []. simpl. auto.
Qed.

Lemma forallb_rev (A : Type) (f : A -> bool) (l : list A) :
  forallb f (rev l) = forallb f l.
Proof.
  induction l as [|x l IH]; [reflexivity|].
  simpl. rewrite forallb_app, IH. simpl.
  rewrite andb_true_r. apply andb_comm.
Qed.

(** [trim] removes stripped code units at both ends and nothing else, and
    what is left neither starts nor ends with one. *)
Lemma trim_spec (s : jsstring) :
  exists pre post,
    s = pre ++ trim s ++ post
    /\ forallb isTrimmed pre = true /\ forallb isTrimmed post = true
    /\ startsTrimmed (trim s) = false /\ endsTrimmed (trim s) = false.
Proof.
  destruct (trimStart_spec s) as (pre & E & Hpre & Hs).
  destruct (trimStart_spec (rev (trimStart s))) as (erp & E' & Herp & Hs').
  assert (Eu : trimStart s = trim s ++ rev erp).
  { unfold trim, trimEnd. rewrite <- rev_app_distr, <- E'.
    symmetry; apply rev_involutive. }
  exists pre, (rev erp). repeat split.
  - rewrite <- Eu. exact E.
  - exact Hpre.
  - rewrite forallb_rev. exact Herp.
  - rewrite Eu in Hs. destruct (trim s); [reflexivity | exact Hs].
  - unfold endsTrimmed, trim, trimEnd. rewrite rev_involutive. exact Hs'.
Qed.

(** The lazy star consumes nothing when its continuation succeeds at
    once. *)
Lemma lazyStar_found (a : atom) (k : jsstring -> option nat) (s : jsstring) n :
  k s = Some n -> lazyStar a k s = Some n.
Proof. intros H. destruct s; simpl; rewrite H; reflexivity. Qed.

(** Running out of fuel: with [splitMeasure pending s] iterations or more
    the loop never reaches its [O] branch, so its result does not depend on
    the fuel. *)
Lemma splitLoop_fuel (r : regex) (f1 f2 : nat) :
  forall pending s,
    splitMeasure pending s <= f1 ->
    splitMeasure pending s <= f2 ->
    splitLoop r f1 pending s = splitLoop r f2 pending s.
Proof.
  revert f2. induction f1 as [|f1 IH]; intros f2 pending s H1 H2.
  - unfold splitMeasure in H1. destruct pending; lia.
  - destruct f2 as [|f2].
    + unfold splitMeasure in H2. destruct pending; lia.
    + simpl. destruct s as [|c s']; [reflexivity|].
      assert (Hadv : splitLoop r f1 (c :: pending) s'
                     = splitLoop r f2 (c :: pending) s').
      { apply IH; unfold splitMeasure in *; simpl in *;
          destruct pending; lia. }
      destruct (matchAt r (c :: s')) as [n|]; [|exact Hadv].
      assert (Hskip : forall m, 0 < m \/ pending <> [] ->
                splitLoop r f1 [] (skipn m (c :: s'))
                = splitLoop r f2 [] (skipn m (c :: s'))).
      { intros m Hm. apply IH; unfold splitMeasure in *.
        - destruct m as [|m].
          + destruct Hm as [Hm|Hm]; [lia|]. simpl skipn.
            destruct pending; [congruence|]. simpl in *. lia.
          + simpl skipn. pose proof (length_skipn m s') as L.
            simpl in *. destruct pending; lia.
        - destruct m as [|m].
          + destruct Hm as [Hm|Hm]; [lia|]. simpl skipn.
            destruct pending; [congruence|]. simpl in *. lia.
          + simpl skipn. pose proof (length_skipn m s') as L.
            simpl in *. destruct pending; lia. }
      destruct n as [|n]; destruct pending as [|x pending];
        try exact Hadv; do 2 f_equal; apply Hskip;
        solve [left; lia | right; discriminate].
Qed.

(** With enough fuel the loop ends in its last section, not in its [O]
    branch: the sections, captured spans included, give back the text. *)
Lemma splitLoop_concat (r : regex) (fuel : nat) :
  forall pending s,
    splitMeasure pending s <= fuel ->
    concat (splitLoop r fuel pending s) = rev pending ++ s.
Proof.
  induction fuel as [|fuel IH]; intros pending s H.
  - unfold splitMeasure in H. destruct pending; lia.
  - simpl. destruct s as [|c s'].
    + simpl. rewrite !app_nil_r. reflexivity.
    + assert (Hadv : concat (splitLoop r fuel (c :: pending) s')
                     = rev pending ++ c :: s').
      { rewrite IH.
        - simpl. rewrite <- app_assoc. reflexivity.
        - unfold splitMeasure in *. simpl in *. destruct pending; lia. }
      destruct (matchAt r (c :: s')) as [n|]; [|exact Hadv].
      assert (Hpush : 0 < n \/ pending <> [] ->
                concat (rev pending :: firstn n (c :: s')
                          :: splitLoop r fuel [] (skipn n (c :: s')))
                = rev pending ++ c :: s').
      { intros Hn. cbn [concat]. rewrite IH.
        - cbn [rev app]. rewrite firstn_skipn. reflexivity.
        - unfold splitMeasure in *. destruct n as [|n].
          + destruct Hn as [Hn|Hn]; [lia|]. simpl skipn.
            destruct pending; [congruence|]. simpl in *. lia.
          + simpl skipn. pose proof (length_skipn n s') as L.
            simpl in *. destruct pending; lia. }
      destruct n as [|n]; destruct pending as [|x pending];
        try exact Hadv; apply Hpush;
        solve [left; lia | right; discriminate].
Qed.

Lemma splitRegex_concat (r : regex) (s : jsstring) :
  s <> [] -> concat (splitRegex r s) = s.
Proof.
  intros H. destruct s as [|c s]; [contradiction H; reflexivity|].
  unfold splitRegex. rewrite splitLoop_concat; [reflexivity|].
  unfold splitMeasure. lia.
Qed.

(** The split depends on the pattern only through its matches. *)
Lemma splitRegex_ext (r1 r2 : regex) :
  (forall s, matchAt r1 s = matchAt r2 s) ->
  forall s, splitRegex r1 s = splitRegex r2 s.
Proof.
  intros E.
  assert (L : forall fuel pending s,
            splitLoop r1 fuel pending s = splitLoop r2 fuel pending s).
  { induction fuel as [|fuel IH]; intros pending s; [reflexivity|].
    simpl. destruct s as [|c s']; [reflexivity|].
    rewrite E, IH.
    destruct (matchAt r2 (c :: s')) as [[|n]|]; [destruct pending| |];
      rewrite ?IH; reflexivity. }
  intros [|c s]; unfold splitRegex; [rewrite E; reflexivity | apply L].
Qed.

End JSFacts.

(* ===================================================================== *)
(** ** The renderer *)
(* ===================================================================== *)

Module RendererFacts.
Import JS Renderer JSFacts.

Lemma closing_cons (d c : char) (s : jsstring) :
  closing d (c :: s) = if eqb_char c d then Some 1 else None.
Proof. unfold closing; simpl. destruct (eqb_char c d); reflexivity. Qed.

Lemma lazyStar_cons (a : atom) (k : jsstring -> option nat) c s :
  lazyStar a k (c :: s) =
  match k (c :: s) with
  | Some n => Some n
  | None => if atomMatches a c then option_map S (lazyStar a k s) else None
  end.
Proof. reflexivity. Qed.

(** [.*?] followed by the closing delimiter stops at the first occurrence
    of the delimiter. *)
Lemma lazyStar_closing (d : char) (s : jsstring) (n : nat) :
  lazyStar Dot (closing d) s = Some n ->
  exists mid rest,
    s = mid ++ d :: rest /\ n = S (length mid) /\ ~ In d mid.
Proof.
  revert n; induction s as [|c s IH]; intros n.
  - discriminate.
  - rewrite lazyStar_cons, closing_cons.
    destruct (eqb_char c d) eqn:E.
    + apply eqb_char_eq in E; subst c. intros H; inversion H.
      exists [], s. simpl. auto.
    + destruct (atomMatches Dot c); [|discriminate].
      destruct (lazyStar Dot (closing d) s) as [m|] eqn:L; [|discriminate].
      simpl. intros H; inversion H; subst n.
      destruct (IH m eq_refl) as (mid & rest & -> & -> & Hnin).
      exists (c :: mid), rest. simpl. repeat split; auto.
      intros [->|Hin]; [|auto].
      rewrite eqb_char_refl in E; discriminate.
Qed.

Lemma spanPattern_match (d : char) (s : jsstring) :
  matchAt (spanPattern d) s =
  match s with
  | [] => None
  | c :: s' =>
      if eqb_char c d then option_map S (lazyStar Dot (closing d) s') else None
  end.
Proof. destruct s; reflexivity. Qed.

Lemma matchAt_Alt (r1 r2 : regex) (s : jsstring) :
  matchAt (Alt r1 r2) s =
  match matchAt r1 s with
  | Some n => Some n
  | None => matchAt r2 s
  end.
Proof. reflexivity. Qed.

(** A doubled delimiter is a complete span. *)
Lemma spanPattern_doubled (d : char) (rest : jsstring) :
  matchAt (spanPattern d) (d :: d :: rest) = Some 2.
Proof.
  rewrite spanPattern_match, eqb_char_refl, lazyStar_cons, closing_cons,
    eqb_char_refl.
  reflexivity.
Qed.

Lemma boldPattern_needs (s : jsstring) (n : nat) :
  matchAt boldPattern s = Some n -> exists rest, s = STAR :: STAR :: rest.
Proof.
  destruct s as [|c [|c2 s]]; unfold matchAt, boldPattern.
  - discriminate.
  - cbn [matcher atomMatches]. destruct (eqb_char c STAR); discriminate.
  - cbn [matcher atomMatches].
    destruct (eqb_char c STAR) eqn:E1; [|discriminate].
    destruct (eqb_char c2 STAR) eqn:E2; [|discriminate].
    apply eqb_char_eq in E1, E2. subst. intros _. exists s; reflexivity.
Qed.

Lemma fencePattern_needs (s : jsstring) (n : nat) :
  matchAt fencePattern s = Some n -> exists rest, s = TICK :: TICK :: rest.
Proof.
  destruct s as [|c [|c2 s]]; unfold matchAt, fencePattern.
  - discriminate.
  - cbn [matcher atomMatches]. destruct (eqb_char c TICK); discriminate.
  - cbn [matcher atomMatches].
    destruct (eqb_char c TICK) eqn:E1; [|discriminate].
    destruct (eqb_char c2 TICK) eqn:E2; [|discriminate].
    apply eqb_char_eq in E1, E2. subst. intros _. exists s; reflexivity.
Qed.

(** The bold and the fence alternative never decide a match: whenever one
    of them could match, the alternative before it has matched already. *)
Lemma sectionPattern_dead_alternatives (s : jsstring) :
  matchAt sectionPattern s
  = matchAt (Alt (spanPattern STAR) (spanPattern TICK)) s.
Proof.
  unfold sectionPattern. rewrite !matchAt_Alt.
  change italicPattern with (spanPattern STAR).
  change inlineCodePattern with (spanPattern TICK).
  destruct (matchAt (spanPattern STAR) s) eqn:E1; [reflexivity|].
  destruct (matchAt boldPattern s) eqn:E2.
  { apply boldPattern_needs in E2 as [rest ->].
    rewrite spanPattern_doubled in E1. discriminate. }
  destruct (matchAt (spanPattern TICK) s) eqn:E3; [reflexivity|].
  destruct (matchAt fencePattern s) eqn:E4; [|reflexivity].
  apply fencePattern_needs in E4 as [rest ->].
  rewrite spanPattern_doubled in E3. discriminate.
Qed.

(** Every match is a span [d ... d] whose inside is free of [d]. *)
Lemma sectionPattern_match (s : jsstring) (n : nat) :
  matchAt sectionPattern s = Some n ->
  exists d mid rest,
    delimiter d /\ s = d :: mid ++ d :: rest /\ n = 2 + length mid
    /\ ~ In d mid.
Proof.
  rewrite sectionPattern_dead_alternatives, matchAt_Alt.
  assert (Hspan : forall d m, matchAt (spanPattern d) s = Some m ->
            exists mid rest,
              s = d :: mid ++ d :: rest /\ m = 2 + length mid /\ ~ In d mid).
  { intros d m. rewrite spanPattern_match. destruct s as [|c s]; [discriminate|].
    destruct (eqb_char c d) eqn:E; [|discriminate].
    apply eqb_char_eq in E; subst c.
    destruct (lazyStar Dot (closing d) s) as [k|] eqn:L; [|discriminate].
    simpl. intros H; inversion H; subst m.
    destruct (lazyStar_closing _ _ L) as (mid & rest & -> & -> & Hn).
    exists mid, rest. auto. }
  destruct (matchAt (spanPattern STAR) s) as [m|] eqn:E1.
  - intros H; inversion H; subst m.
    destruct (Hspan STAR n E1) as (mid & rest & ? & ? & ?).
    exists STAR, mid, rest. unfold delimiter. auto.
  - intros H. destruct (Hspan TICK n H) as (mid & rest & ? & ? & ?).
    exists TICK, mid, rest. unfold delimiter. auto.
Qed.

(** At a doubled delimiter the pattern matches. *)
Lemma sectionPattern_doubled (d : char) (rest : jsstring) :
  delimiter d -> matchAt sectionPattern (d :: d :: rest) = Some 2.
Proof.
  intros [-> | ->]; rewrite sectionPattern_dead_alternatives, matchAt_Alt.
  - rewrite spanPattern_doubled. reflexivity.
  - rewrite spanPattern_doubled.
    destruct (matchAt (spanPattern STAR) (TICK :: TICK :: rest)) eqn:E;
      [|reflexivity].
    rewrite spanPattern_match in E. discriminate.
Qed.

(** A matched section is well delimited. *)
Lemma span_wellDelimited (d : char) (mid : jsstring) :
  ~ In d mid -> wellDelimited (d :: mid ++ [d]).
Proof.
  intros Hn d' _ H. apply startsWith_app in H as [rest H].
  simpl in H. inversion H as [[Hd Hmid]]. subst d'.
  destruct mid as [|x mid]; [reflexivity|].
  simpl in Hmid. inversion Hmid. subst x. exfalso. apply Hn. left; reflexivity.
Qed.

Lemma firstn_closing (d : char) (mid rest : jsstring) :
  firstn (S (length mid)) (mid ++ d :: rest) = mid ++ [d].
Proof.
  induction mid as [|x mid IH]; [reflexivity|].
  cbn [length app]. rewrite firstn_cons. f_equal. exact IH.
Qed.

Lemma firstn_span (d : char) (mid rest : jsstring) :
  firstn (2 + length mid) (d :: mid ++ d :: rest) = d :: mid ++ [d].
Proof.
  cbn [Nat.add]. rewrite firstn_cons. f_equal. apply firstn_closing.
Qed.

Lemma pending_wellDelimited (pending s : jsstring) :
  unmatchedSoFar pending s -> wellDelimited (rev pending).
Proof.
  intros H d Hd Hs. exfalso.
  destruct pending as [|x pending]; [discriminate|].
  apply (startsWith_prefix _ s) in Hs.
  rewrite (H ltac:(discriminate) d Hd) in Hs. discriminate.
Qed.

Lemma splitLoop_wellDelimited (fuel : nat) :
  forall pending s,
    unmatchedSoFar pending s ->
    Forall wellDelimited (splitLoop sectionPattern fuel pending s).
Proof.
  induction fuel as [|fuel IH]; intros pending s H; simpl; [constructor|].
  destruct s as [|c s'].
  - constructor; [|constructor]. exact (pending_wellDelimited H).
  - destruct (matchAt sectionPattern (c :: s')) as [n|] eqn:M.
    + destruct (sectionPattern_match _ M) as (d & mid & rest & Hd & Hs & -> & Hn).
      remember (2 + length mid) as n eqn:En.
      destruct n as [|n']; [discriminate|]. cbv iota beta.
      rewrite En, Hs, (firstn_span d mid rest).
      constructor; [|constructor].
      * exact (pending_wellDelimited H).
      * apply span_wellDelimited; assumption.
      * apply IH. intros Hp; contradiction Hp; reflexivity.
    + apply IH. intros _ d Hd. simpl rev. rewrite <- app_assoc. simpl.
      destruct pending as [|x pending].
      * simpl rev. simpl app.
        destruct (startsWith (c :: s') [d; d]) eqn:E; [|exact E].
        apply startsWith_app in E as [rest E]. simpl in E.
        rewrite E, (sectionPattern_doubled rest Hd) in M. discriminate.
      * apply H; [discriminate | assumption].
Qed.

Lemma splitRegex_wellDelimited (text : jsstring) :
  Forall wellDelimited (splitRegex sectionPattern text).
Proof.
  destruct text as [|c text].
  - simpl. constructor; [|constructor]. intros d _ H. discriminate.
  - unfold splitRegex. apply splitLoop_wellDelimited.
    intros Hp; contradiction Hp; reflexivity.
Qed.

(** What the callback makes of a well-delimited section. *)
Lemma renderSection_Strong (section t : jsstring) :
  wellDelimited section -> renderSection section = Strong t -> t = [].
Proof.
  intros W. unfold renderSection.
  destruct (startsWith section (str "**") && endsWith section (str "**"))
    eqn:E.
  - apply andb_true_iff in E as [E _].
    rewrite (W STAR (or_introl eq_refl) E). intros H; inversion H. reflexivity.
  - repeat match goal with
           | |- (if ?b then _ else _) = _ -> _ => destruct b
           end; discriminate.
Qed.

Lemma renderSection_Pre (section t : jsstring) :
  wellDelimited section -> renderSection section <> Pre t.
Proof.
  intros W. unfold renderSection.
  destruct (startsWith section (str "**") && endsWith section (str "**"));
    [discriminate|].
  destruct (startsWith section (str "*") && endsWith section (str "*"));
    [discriminate|].
  destruct (startsWith section (str "```") && endsWith section (str "```"))
    eqn:E.
  - exfalso. apply andb_true_iff in E as [E _].
    assert (E2 : startsWith section [TICK; TICK] = true).
    { apply startsWith_app in E as [rest ->]. reflexivity. }
    rewrite (W TICK (or_intror eq_refl) E2) in E. discriminate.
  - repeat match goal with
           | |- (if ?b then _ else _) <> _ => destruct b
           end; discriminate.
Qed.

(** The sections are those of the pattern without its bold and fence
    alternatives. *)
Lemma splitRegex_sectionPattern (text : jsstring) :
  splitRegex sectionPattern text
  = splitRegex (Alt (spanPattern STAR) (spanPattern TICK)) text.
Proof. apply splitRegex_ext. exact sectionPattern_dead_alternatives. Qed.

(** Whatever the text, a [<strong>] element is empty and no [<pre>]
    element is produced. *)
Lemma renderFormattedText_Strong_empty (text t : jsstring) :
  In (Strong t) (renderFormattedText text) -> t = [].
Proof.
  unfold renderFormattedText. intros H.
  apply in_map_iff in H as (section & Hr & Hin).
  pose proof (splitRegex_wellDelimited text) as W.
  rewrite Forall_forall in W.
  exact (renderSection_Strong (W _ Hin) Hr).
Qed.

Lemma renderFormattedText_no_Pre (text t : jsstring) :
  ~ In (Pre t) (renderFormattedText text).
Proof.
  unfold renderFormattedText. intros H.
  apply in_map_iff in H as (section & Hr & Hin).
  pose proof (splitRegex_wellDelimited text) as W.
  rewrite Forall_forall in W.
  exact (renderSection_Pre (W _ Hin) Hr).
Qed.

(** C1 (the code departs from the claim).  On
    ["**bold** and *italic* and `code`"] the renderer does not produce
    bold("bold"): the italic alternative stands first in the pattern and
    matches the opening ["**"] and the closing ["**"] each as a span of its
    own, so the result is an empty leading text, an empty bold element, the
    plain text "bold", a second empty bold element, then plain(" and "),
    italic("italic"), plain(" and "), code("code") and an empty trailing
    text.  It differs from the claimed sequence, and no bold element
    holding "bold" occurs in it. *)
Theorem renderFormattedText_bold_italic_code :
  renderFormattedText boldItalicCode
  = [plain []; Strong []; plain (str "bold"); Strong [];
     plain (str " and "); Em (str "italic"); plain (str " and ");
     Code (str "code"); plain []]
  /\ renderFormattedText boldItalicCode
     <> [Strong (str "bold"); plain (str " and "); Em (str "italic");
         plain (str " and "); Code (str "code")]
  /\ ~ In (Strong (str "bold")) (renderFormattedText boldItalicCode).
Proof.
  assert (E : renderFormattedText boldItalicCode
    = [plain []; Strong []; plain (str "bold"); Strong [];
       plain (str " and "); Em (str "italic"); plain (str " and ");
       Code (str "code"); plain []]) by (vm_compute; reflexivity).
  split; [exact E|]. split.
  - rewrite E. discriminate.
  - intros H. apply renderFormattedText_Strong_empty in H. discriminate.
Qed.

(** C2 (the code departs from the claim).  The priority of the claim does
    not hold at any position where two patterns compete: the pattern lists
    italic before bold and inline code before the fence, so ["**a**"]
    yields two empty bold elements around the plain text "a", and
    ["```x```"] yields inline-code elements and no code block.  For every
    input the sections are those of the pattern reduced to its italic and
    inline-code alternatives, a bold element is empty and no code block is
    emitted. *)
Theorem renderFormattedText_priority :
  renderFormattedText (str "**a**")
  = [plain []; Strong []; plain (str "a"); Strong []; plain []]
  /\ renderFormattedText (str "```x```")
     = [plain []; Code []; plain []; Code (str "x"); plain []; Code [];
        plain []]
  /\ (forall text,
        splitRegex sectionPattern text
        = splitRegex (Alt (spanPattern STAR) (spanPattern TICK)) text)
  /\ (forall text,
        forallb emptyBoldNoBlock (renderFormattedText text) = true).
Proof.
  split; [vm_compute; reflexivity|].
  split; [vm_compute; reflexivity|].
  split; [exact splitRegex_sectionPattern|].
  intros text. apply forallb_forall. intros [t|t|t|t|t|ls] Hin; try reflexivity.
  - apply renderFormattedText_Strong_empty in Hin. subst t. reflexivity.
  - exfalso. exact (renderFormattedText_no_Pre _ _ Hin).
Qed.

(** C3, as the claim states it, fails: ["* one\n* two"] does not yield a
    list item "one" and a list item "two". *)
Lemma renderFormattedText_two_bullets_not_per_line :
  ~ (In (Li (str "one")) (renderFormattedText twoBullets)
     /\ In (Li (str "two")) (renderFormattedText twoBullets)).
Proof.
  assert (E : renderFormattedText twoBullets
              = [Li (str "one" ++ [LF] ++ str "* two")])
    by (vm_compute; reflexivity).
  rewrite E. intros [[H|[]] _]. discriminate.
Qed.

(** C3 (amended).  No span matches in ["* one\n* two"] ([.] does not cross
    the line break and the second star has no closing star), so the text is
    one section; the bullet rule applies to the section as a whole and
    yields exactly one list item, whose text is ["one\n* two"]: the marker
    and the space after it are stripped from the start of the section. *)
Theorem renderFormattedText_two_bullets :
  splitRegex sectionPattern twoBullets = [twoBullets]
  /\ renderFormattedText twoBullets
     = [Li (str "one" ++ [LF] ++ str "* two")].
Proof. split; vm_compute; reflexivity. Qed.

End RendererFacts.

(* ===================================================================== *)
(** ** The prompt dispatcher *)
(* ===================================================================== *)

Module GeminiServiceFacts.
Import JS GeminiService JSFacts.

Lemma getPrompt_member (m : ProcessMode) (text : jsstring) :
  getPrompt (Member m) text = Normal (template (directive m) text).
Proof. destruct m; reflexivity. Qed.

(** The three steps of the [try] block, for a member of the enum. *)
Lemma processTextWithGemini_member (ai : client) (text : jsstring)
  (m : ProcessMode) :
  processTextWithGemini ai text (Member m) =
  match ai (requestFor (template (directive m) text)) with
  | Normal {| response_text := Some (c :: t) |} => Normal (trim (c :: t))
  | Normal _ => Normal (failure emptyResponseMessage)
  | Throw e => onError e
  end.
Proof.
  unfold processTextWithGemini. rewrite getPrompt_member.
  unfold bind, tryCatch, requestFor.
  destruct (ai _) as [[[[|c t]|]]|e]; reflexivity.
Qed.

(** When the boundary rejects with an [Error], the result is the prefix
    followed by the message of the error. *)
Lemma processTextWithGemini_Error (ai : client) (text : jsstring)
  (m : ProcessMode) (message : jsstring) :
  ai (requestFor (template (directive m) text)) = Throw (ErrorObject message) ->
  processTextWithGemini ai text (Member m)
  = Normal (errorPrefix ++ str " " ++ message).
Proof. intros H. rewrite processTextWithGemini_member, H. reflexivity. Qed.

(** C5, as the claim states it, fails: with a mode outside the enum no
    exception leaves [processTextWithGemini]. *)
Lemma processTextWithGemini_invalid_mode_no_throw :
  ~ (exists e,
       processTextWithGemini (resolvingWith (Some (str "ok"))) (str "hello")
         (NotMember 0)
       = Throw e).
Proof. intros [e H]. vm_compute in H. discriminate. Qed.

(** C5 (amended).  For a mode outside the enum [getPrompt] throws
    [Error('Invalid process mode')]; the call stands inside the [try]
    block, so [processTextWithGemini] catches the error and resolves with
    the error string ["An error occurred: Invalid process mode"], whatever
    the boundary is: it is not called. *)
Theorem processTextWithGemini_invalid_mode (ai : client) (text : jsstring)
  (tag : N) :
  getPrompt (NotMember tag) text
  = Throw (ErrorObject (str "Invalid process mode"))
  /\ processTextWithGemini ai text (NotMember tag)
     = Normal (str "An error occurred: Invalid process mode").
Proof. split; reflexivity. Qed.

(** C6.  For a member of the enum, when the boundary resolves with an
    absent or an empty text, the result is the error string that reports
    the empty response: it starts with the error prefix, and it is not the
    empty payload. *)
Theorem processTextWithGemini_empty_response (ai : client) (text : jsstring)
  (m : ProcessMode) (prompt : jsstring) (resp : response) :
  getPrompt (Member m) text = Normal prompt ->
  ai (requestFor prompt) = Normal resp ->
  response_text resp = None \/ response_text resp = Some [] ->
  processTextWithGemini ai text (Member m)
  = Normal (str "An error occurred: Received an empty response from the AI.")
  /\ includes (str "An error occurred: Received an empty response from the AI.")
       (str "empty response") = true
  /\ processTextWithGemini ai text (Member m) <> Normal [].
Proof.
  intros Hp Hai Hempty. rewrite getPrompt_member in Hp. inversion Hp; subst.
  rewrite processTextWithGemini_member, Hai.
  destruct resp as [t]. simpl in Hempty.
  destruct Hempty as [-> | ->]; (split; [reflexivity|]);
    (split; [vm_compute; reflexivity | discriminate]).
Qed.

(** The boundary resolves with [""] for a request to summarize "hello". *)
Lemma processTextWithGemini_empty_response_witness :
  getPrompt (Member SUMMARIZE) (str "hello")
  = Normal (template summarizeDirective (str "hello"))
  /\ resolvingWith (Some []) (requestFor (template summarizeDirective (str "hello")))
     = Normal {| response_text := Some [] |}
  /\ processTextWithGemini (resolvingWith (Some [])) (str "hello")
       (Member SUMMARIZE)
     = Normal (str "An error occurred: Received an empty response from the AI.").
Proof.
  split; [reflexivity|]. split; [reflexivity|].
  apply (@processTextWithGemini_empty_response (resolvingWith (Some []))
           (str "hello") SUMMARIZE
           (template summarizeDirective (str "hello"))
           {| response_text := Some [] |});
    [reflexivity | reflexivity | right; reflexivity].
Defined.

(** C7.  For a member of the enum, when the boundary resolves with a
    non-empty text, the result is that text trimmed: the payload is the
    result between a run and a run of code units that [trim] strips, and
    the result neither starts nor ends with such a code unit. *)
Theorem processTextWithGemini_success (ai : client) (text : jsstring)
  (m : ProcessMode) (prompt payload : jsstring) :
  getPrompt (Member m) text = Normal prompt ->
  ai (requestFor prompt) = Normal {| response_text := Some payload |} ->
  payload <> [] ->
  processTextWithGemini ai text (Member m) = Normal (trim payload)
  /\ exists pre post,
       payload = pre ++ trim payload ++ post
       /\ forallb isTrimmed pre = true /\ forallb isTrimmed post = true
       /\ startsTrimmed (trim payload) = false
       /\ endsTrimmed (trim payload) = false.
Proof.
  intros Hp Hai Hne. rewrite getPrompt_member in Hp. inversion Hp; subst.
  split; [|apply trim_spec].
  rewrite processTextWithGemini_member, Hai.
  destruct payload; [contradiction Hne|]; reflexivity.
Qed.

(** The boundary resolves with ["  A summary. "]. *)
Lemma processTextWithGemini_success_witness :
  processTextWithGemini (resolvingWith (Some (str "  A summary. ")))
    (str "hello") (Member SUMMARIZE)
  = Normal (str "A summary.").
Proof.
  apply (@processTextWithGemini_success
           (resolvingWith (Some (str "  A summary. ")))
           (str "hello") SUMMARIZE
           (template summarizeDirective (str "hello"))
           (str "  A summary. "));
    [reflexivity | reflexivity | discriminate].
Defined.

(** C8.  For each of the three modes and every text, [getPrompt] returns
    an instruction that holds the text verbatim, after the directive of
    the mode; the instruction holds the words that name the mode's task,
    and the directive of no other mode holds them.  The text need not be
    non-empty. *)
Theorem getPrompt_contains_text_and_directive (m : ProcessMode)
  (text : jsstring) :
  exists prompt,
    getPrompt (Member m) text = Normal prompt
    /\ (exists pre post, prompt = pre ++ text ++ post)
    /\ (exists rest, prompt = directive m ++ rest)
    /\ forallb (includes prompt) (directivePhrases m) = true
    /\ forallb (fun m' =>
                  forallb (fun phrase => negb (includes (directive m') phrase))
                    (directivePhrases m))
         (otherModes m) = true.
Proof.
  exists (template (directive m) text).
  split; [apply getPrompt_member|]. split; [|split; [|split]].
  - exists (directive m ++ [LF; LF] ++ str "---" ++ [LF]),
           ([LF] ++ str "---").
    unfold template. rewrite <- !app_assoc. reflexivity.
  - exists ([LF; LF] ++ str "---" ++ [LF] ++ text ++ [LF] ++ str "---").
    reflexivity.
  - apply forallb_forall. intros phrase Hin. unfold template.
    apply includes_app_l.
    destruct m; simpl in Hin;
      repeat (destruct Hin as [<- | Hin]; [vm_compute; reflexivity|]);
      contradiction.
  - destruct m; vm_compute; reflexivity.
Qed.

(** C10.  Whatever the text, the mode and the boundary,
    [processTextWithGemini] resolves with a string: every exception of the
    [try] block is caught, and the [catch] block returns in both of its
    cases. *)
Theorem processTextWithGemini_total (ai : client) (text : jsstring)
  (mode : modeValue) :
  exists result, processTextWithGemini ai text mode = Normal result.
Proof.
  destruct mode as [m | tag].
  - rewrite processTextWithGemini_member.
    destruct (ai _) as [[[[|c t]|]]|[message|v]]; eexists; reflexivity.
  - eexists; reflexivity.
Qed.

End GeminiServiceFacts.

(* ===================================================================== *)
(** ** The component: error display and saved notes *)
(* ===================================================================== *)

Module AppFacts.
Import JS GeminiService App JSFacts GeminiServiceFacts.

(** What [handleProcess] does with the string the service resolves with:
    the error prefix alone decides between the error and the output. *)
Lemma handleProcess_result (key : jsstring) (ai : client) (m : ProcessMode)
  (st : state) (result : jsstring) :
  key <> [] ->
  trim (inputText st) <> [] ->
  processTextWithGemini ai (inputText st) (Member m) = Normal result ->
  exists st',
    handleProcess (Some key) ai m st = Normal st'
    /\ currentMode st' = Some m
    /\ savedNotes st' = savedNotes st
    /\ isLoading st' = false
    /\ (if startsWith result errorPrefix
        then error st' = result /\ outputText st' = []
        else error st' = [] /\ outputText st' = result).
Proof.
  intros Hk Ht Hr. unfold handleProcess.
  destruct (trim (inputText st)); [contradiction Ht; reflexivity|].
  destruct key; [contradiction Hk; reflexivity|].
  cbn [isEmpty]. rewrite Hr. cbn [bind].
  change (str "An error occurred:") with errorPrefix.
  eexists; split; [reflexivity|].
  destruct (startsWith result errorPrefix); repeat split; reflexivity.
Qed.

(** C4 (the code departs from the claim).  When the boundary rejects with
    a value that is not an [Error], the service resolves with
    ["An unknown error occurred while contacting the AI."], which does not
    start with ["An error occurred:"]; [handleProcess], which tells an
    error by that prefix, then shows the failure as output and leaves the
    error empty.  The sibling case, an [Error], does carry the prefix. *)
Theorem processTextWithGemini_unknown_error_unprefixed :
  (forall text m v,
     processTextWithGemini (rejectingWith (OtherValue v)) text (Member m)
     = Normal unknownErrorMessage)
  /\ startsWith unknownErrorMessage errorPrefix = false
  /\ (exists st',
        handleProcess (Some (str "key"))
          (rejectingWith (OtherValue (StringValue (str "quota exceeded"))))
          SUMMARIZE (typed (str "hello"))
        = Normal st'
        /\ outputText st' = unknownErrorMessage
        /\ error st' = [])
  /\ (forall text m message,
        processTextWithGemini (rejectingWith (ErrorObject message)) text
          (Member m)
        = Normal (errorPrefix ++ str " " ++ message)).
Proof.
  split; [|split; [|split]].
  - intros text m v. rewrite processTextWithGemini_member. reflexivity.
  - vm_compute; reflexivity.
  - eexists. split; [vm_compute; reflexivity|]. split; reflexivity.
  - intros text m message. apply processTextWithGemini_Error. reflexivity.
Qed.

Lemma filter_other_ids (noteId : jsstring) (l : list SavedNote) :
  (forall other, In other l -> id other <> noteId) ->
  filter (fun note => negb (eqb_str (id note) noteId)) l = l.
Proof.
  induction l as [|x l IH]; intros H; simpl; [reflexivity|].
  destruct (eqb_str (id x) noteId) eqn:E.
  - apply eqb_str_eq in E. exfalso. exact (H x (or_introl eq_refl) E).
  - simpl. f_equal. apply IH. intros other Hin. apply H. right; exact Hin.
Qed.




End AppFacts.
(* ===================================================================== *)
(** ** Further properties of the renderer *)
(* ===================================================================== *)

Module RendererProps.
Import JS Renderer JSFacts RendererFacts.

Lemma eqb_char_neq (a b : char) : eqb_char a b = false <-> a <> b.
Proof. unfold eqb_char. apply N.eqb_neq. Qed.

Lemma sectionPattern_nil : matchAt sectionPattern [] = None.
Proof. reflexivity. Qed.

(** No span starts at a code unit that is neither a star nor a backtick. *)
Lemma sectionPattern_plain (c : char) (s : jsstring) :
  eqb_char c STAR = false -> eqb_char c TICK = false ->
  matchAt sectionPattern (c :: s) = None.
Proof.
  intros HS HT.
  rewrite sectionPattern_dead_alternatives, matchAt_Alt, !spanPattern_match,
    HS, HT.
  reflexivity.
Qed.

(** [.*?] runs over a line free of the delimiter up to the delimiter. *)
Lemma lazyStar_finds (d : char) (mid post : jsstring) :
  oneLine mid = true -> noneOf d mid = true ->
  lazyStar Dot (closing d) (mid ++ d :: post) = Some (S (length mid)).
Proof.
  induction mid as [|c mid IH]; intros HL HN.
  - simpl app. rewrite lazyStar_cons, closing_cons, eqb_char_refl. reflexivity.
  - simpl in HL, HN. apply andb_true_iff in HL as [HL1 HL2].
    apply andb_true_iff in HN as [HN1 HN2].
    simpl app. rewrite lazyStar_cons, closing_cons.
    apply negb_true_iff in HN1. rewrite HN1.
    cbn [atomMatches]. rewrite HL1, (IH HL2 HN2). reflexivity.
Qed.

(** A delimiter, a line free of it and the delimiter again match as one
    span. *)
Lemma sectionPattern_span (d : char) (mid post : jsstring) :
  delimiter d -> oneLine mid = true -> noneOf d mid = true ->
  matchAt sectionPattern (d :: mid ++ d :: post) = Some (2 + length mid).
Proof.
  intros Hd HL HN.
  rewrite sectionPattern_dead_alternatives, matchAt_Alt.
  destruct Hd as [-> | ->].
  - rewrite spanPattern_match, eqb_char_refl, (@lazyStar_finds _ _ post HL HN).
    reflexivity.
  - rewrite (spanPattern_match STAR). cbn [eqb_char TICK STAR N.eqb Pos.eqb].
    rewrite spanPattern_match, eqb_char_refl, (@lazyStar_finds _ _ post HL HN).
    reflexivity.
Qed.

Lemma noDelimiter_cons (c : char) (s : jsstring) :
  noDelimiter (c :: s) = true ->
  eqb_char c STAR = false /\ eqb_char c TICK = false /\ noDelimiter s = true.
Proof.
  unfold noDelimiter, noneOf. simpl. intros H.
  apply andb_true_iff in H as [H1 H2].
  apply andb_true_iff in H1 as [H1 H1'].
  apply andb_true_iff in H2 as [H2 H2'].
  apply negb_true_iff in H1, H2. rewrite H1', H2'. auto.
Qed.

(** The scan walks over text without delimiters and keeps it pending. *)
Lemma splitLoop_plain (pre : jsstring) :
  forall fuel pending s,
    noDelimiter pre = true ->
    splitLoop sectionPattern (length pre + fuel) pending (pre ++ s)
    = splitLoop sectionPattern fuel (rev pre ++ pending) s.
Proof.
  induction pre as [|c pre IH]; intros fuel pending s H; [reflexivity|].
  apply noDelimiter_cons in H as (HS & HT & H).
  cbn [length Nat.add app splitLoop].
  rewrite (@sectionPattern_plain c _ HS HT), IH by exact H.
  cbn [rev]. rewrite <- app_assoc. reflexivity.
Qed.

Lemma skipn_span (d : char) (mid post : jsstring) :
  skipn (2 + length mid) (d :: mid ++ d :: post) = post.
Proof.
  cbn [Nat.add skipn].
  induction mid as [|x mid IH]; [reflexivity | exact IH].
Qed.

(** With fuel to spare the scan of a text is its split. *)
Lemma splitLoop_splitRegex (fuel : nat) (s : jsstring) :
  2 * length s + 1 <= fuel ->
  splitLoop sectionPattern fuel [] s = splitRegex sectionPattern s.
Proof.
  intros H. destruct s as [|c s].
  - destruct fuel; [simpl in H; lia | reflexivity].
  - unfold splitRegex. apply splitLoop_fuel; unfold splitMeasure; lia.
Qed.

(** Every section is kept: put together, the sections are the text. *)
Theorem sections_give_back_text (text : jsstring) :
  concat (splitRegex sectionPattern text) = text.
Proof.
  destruct text as [|c text]; [reflexivity|].
  apply splitRegex_concat. discriminate.
Qed.

Lemma lazyStar_closing_line (d : char) (s : jsstring) (n : nat) :
  lazyStar Dot (closing d) s = Some n ->
  noneOf d (firstn (n - 1) s) = true /\ oneLine (firstn (n - 1) s) = true.
Proof.
  revert n; induction s as [|c s IH]; intros n.
  - discriminate.
  - rewrite lazyStar_cons, closing_cons.
    destruct (eqb_char c d) eqn:E.
    + intros H; inversion H. split; reflexivity.
    + cbn [atomMatches]. destruct (isLineTerminator c) eqn:L; [discriminate|].
      destruct (lazyStar Dot (closing d) s) as [m|] eqn:M; [|discriminate].
      simpl. intros H; inversion H; subst n.
      destruct (lazyStar_closing _ _ M) as (mid & rest & _ & -> & _).
      destruct (IH _ eq_refl) as [H1 H2].
      cbn [Nat.sub] in *. rewrite Nat.sub_0_r in *.
      cbn [firstn]. unfold noneOf, oneLine in *. simpl.
      rewrite E, L, H1, H2. split; reflexivity.
Qed.

(** A match is a span. *)
Lemma sectionPattern_isSpan (s : jsstring) (n : nat) :
  matchAt sectionPattern s = Some n -> isSpan (firstn n s).
Proof.
  intros M. destruct (sectionPattern_match _ M) as (d & mid & rest & Hd & -> & -> & _).
  assert (L : lazyStar Dot (closing d) (mid ++ d :: rest) = Some (S (length mid))).
  { rewrite sectionPattern_dead_alternatives, matchAt_Alt in M.
    destruct Hd as [-> | ->].
    - rewrite spanPattern_match, eqb_char_refl in M.
      destruct (lazyStar Dot (closing STAR) (mid ++ STAR :: rest)) as [k|];
        [|discriminate].
      simpl in M. inversion M. reflexivity.
    - rewrite (spanPattern_match STAR) in M.
      cbn [eqb_char TICK STAR N.eqb Pos.eqb] in M.
      rewrite spanPattern_match, eqb_char_refl in M.
      destruct (lazyStar Dot (closing TICK) (mid ++ TICK :: rest)) as [k|];
        [|discriminate].
      simpl in M. inversion M. reflexivity. }
  apply lazyStar_closing_line in L. cbn [Nat.sub] in L.
  rewrite Nat.sub_0_r, firstn_app, firstn_all, Nat.sub_diag in L.
  simpl firstn in L. rewrite app_nil_r in L. destruct L as [L1 L2].
  rewrite firstn_span. exists d, mid. auto.
Qed.

Lemma splitLoop_spans (fuel : nat) :
  forall pending s,
    Forall isSpan (spansOf (splitLoop sectionPattern fuel pending s)).
Proof.
  induction fuel as [|fuel IH]; intros pending s; [constructor|].
  simpl. destruct s as [|c s']; [constructor|].
  destruct (matchAt sectionPattern (c :: s')) as [n|] eqn:M; [|apply IH].
  pose proof (sectionPattern_isSpan _ M) as Hspan.
  destruct n as [|n]; destruct pending as [|x pending];
    try apply IH; cbn [spansOf]; constructor; auto.
Qed.

(** The sections at the odd positions are spans: a star or a backtick, a
    run of code units on one line without that delimiter, and the
    delimiter again. *)
Theorem captured_sections_are_spans (text : jsstring) :
  Forall isSpan (spansOf (splitRegex sectionPattern text)).
Proof.
  destruct text as [|c text]; [constructor|].
  unfold splitRegex. apply splitLoop_spans.
Qed.

(** A text without stars and backticks is one section. *)
Lemma splitRegex_plain (text : jsstring) :
  noDelimiter text = true -> splitRegex sectionPattern text = [text].
Proof.
  intros H.
  pose proof (@splitLoop_plain text (length text + 1) [] [] H) as E.
  rewrite !app_nil_r, Nat.add_1_r in E.
  cbn [splitLoop] in E. rewrite rev_involutive in E.
  destruct text as [|c text]; [reflexivity|].
  unfold splitRegex.
  replace (S (2 * length (c :: text)))
    with (length (c :: text) + S (length (c :: text))) by lia.
  exact E.
Qed.

(** *** Text without markup *)

Lemma splitChar_cons (sep : char) (s : jsstring) :
  exists l ls, splitChar sep s = l :: ls.
Proof.
  destruct s as [|c s]; simpl; [eauto|].
  destruct (eqb_char c sep); [eauto|].
  destruct (splitChar sep s); eauto.
Qed.

(** Splitting at line breaks and joining with line breaks is the
    identity, and no line holds a line break. *)
Lemma joinChar_splitChar (sep : char) (s : jsstring) :
  joinChar sep (splitChar sep s) = s.
Proof.
  induction s as [|c s IH]; [reflexivity|].
  simpl. destruct (splitChar_cons sep s) as (l & ls & E).
  rewrite E in *. destruct (eqb_char c sep) eqn:C.
  - apply eqb_char_eq in C; subst c.
    change (joinChar sep ([] :: l :: ls))
      with ([] ++ sep :: joinChar sep (l :: ls)).
    rewrite IH. reflexivity.
  - destruct ls; cbn [joinChar] in *; rewrite <- IH; reflexivity.
Qed.

Lemma splitChar_noneOf (sep : char) (s : jsstring) :
  Forall (fun l => noneOf sep l = true) (splitChar sep s).
Proof.
  induction s as [|c s IH]; simpl.
  - constructor; [reflexivity | constructor].
  - destruct (eqb_char c sep) eqn:C.
    + constructor; [reflexivity | exact IH].
    + destruct (splitChar sep s) as [|l ls].
      * constructor; [|constructor]. unfold noneOf. simpl. rewrite C.
        reflexivity.
      * inversion IH; subst. constructor; [|assumption].
        unfold noneOf in *. simpl. rewrite C. assumption.
Qed.

Lemma mapiFrom_content (n : nat) (ls : list jsstring) (i : nat) :
  map content
    (mapiFrom (fun l lineIndex =>
                 {| content := l; br := (lineIndex <? n)%nat |}) i ls)
  = ls.
Proof.
  revert i; induction ls as [|l ls IH]; intros i; [reflexivity|].
  simpl. f_equal. apply IH.
Qed.

Lemma mapiFrom_br (n : nat) (ls : list jsstring) (i : nat) :
  ls <> [] -> i + length ls = S n ->
  map br
    (mapiFrom (fun l lineIndex =>
                 {| content := l; br := (lineIndex <? n)%nat |}) i ls)
  = breaks (length ls).
Proof.
  set (f := fun (l : jsstring) lineIndex =>
              {| content := l; br := (lineIndex <? n)%nat |}).
  revert i; induction ls as [|l ls IH]; intros i Hne Hlen;
    [contradiction Hne; reflexivity|].
  change (mapiFrom f i (l :: ls)) with (f l i :: mapiFrom f (S i) ls).
  rewrite map_cons. destruct ls as [|l' ls].
  - simpl in *. assert (i = n) by lia. subst i.
    rewrite Nat.ltb_irrefl. reflexivity.
  - rewrite IH; [|discriminate | simpl in *; lia].
    assert (L : (i <? n)%nat = true) by (apply Nat.ltb_lt; simpl in *; lia).
    unfold f at 1. cbn [br]. rewrite L. unfold breaks.
    cbn [length Nat.sub]. rewrite Nat.sub_0_r. reflexivity.
Qed.

Lemma length_mapiFrom (A B : Type) (f : A -> nat -> B) (l : list A) (i : nat) :
  length (mapiFrom f i l) = length l.
Proof.
  revert i; induction l as [|x l IH]; intros i; [reflexivity|].
  simpl. f_equal. apply IH.
Qed.

(** The tests of the callback on the first code unit. *)
Lemma renderSection_plain (section : jsstring) :
  noDelimiter section = true ->
  startsWith section (str "- ") = false ->
  renderSection section
  = Lines (mapi (fun l lineIndex =>
                   {| content := l;
                      br := (lineIndex <?
                               length (splitChar LF section) - 1)%nat |})
             (splitChar LF section)).
Proof.
  intros H Hdash. unfold renderSection. rewrite Hdash.
  destruct section as [|c s]; [reflexivity|].
  apply noDelimiter_cons in H as (HS & HT & _).
  change (str "**") with [STAR; STAR]. change (str "*") with [STAR].
  change (str "```") with [TICK; TICK; TICK]. change (str "`") with [TICK].
  change (str "* ") with [STAR; 32%N].
  cbn [startsWith]. rewrite HS, HT. reflexivity.
Qed.

(** A text without stars and backticks that does not start with ["- "] is
    rendered as its lines: joined with line breaks they are the text, no
    line holds a line break, and a [<br />] follows each line but the
    last. *)
Theorem plain_text_lines (text : jsstring) :
  noDelimiter text = true ->
  startsWith text (str "- ") = false ->
  exists ls,
    renderFormattedText text = [Lines ls]
    /\ joinChar LF (map content ls) = text
    /\ Forall (fun l => noneOf LF (content l) = true) ls
    /\ map br ls = breaks (length ls).
Proof.
  intros H Hdash. unfold renderFormattedText.
  rewrite (splitRegex_plain _ H). cbn [map].
  rewrite (renderSection_plain _ H Hdash).
  eexists. split; [reflexivity|]. unfold mapi.
  destruct (splitChar_cons LF text) as (l & ls & E).
  split; [|split].
  - rewrite mapiFrom_content. apply joinChar_splitChar.
  - pose proof (splitChar_noneOf LF text) as F.
    rewrite Forall_forall in *. intros x Hin.
    apply F. rewrite <- (mapiFrom_content (length (splitChar LF text) - 1)
                           (splitChar LF text) 0).
    apply in_map. exact Hin.
  - rewrite length_mapiFrom. apply mapiFrom_br.
    + rewrite E; discriminate.
    + rewrite E. simpl. lia.
Qed.

(** The text ["line1\nline2"]. *)
Lemma plain_text_lines_witness :
  let text := str "line1" ++ [LF] ++ str "line2" in
  noDelimiter text = true
  /\ startsWith text (str "- ") = false
  /\ exists ls,
       renderFormattedText text = [Lines ls]
       /\ joinChar LF (map content ls) = text
       /\ Forall (fun l => noneOf LF (content l) = true) ls
       /\ map br ls = breaks (length ls).
Proof.
  cbv zeta. split; [reflexivity|]. split; [reflexivity|].
  apply plain_text_lines; reflexivity.
Defined.

(** *** Bullets *)

(** Without a closing delimiter further on, [.*?] finds nothing. *)
Lemma lazyStar_unclosed (d : char) (s : jsstring) :
  noneOf d s = true -> lazyStar Dot (closing d) s = None.
Proof.
  induction s as [|c s IH]; intros H; [reflexivity|].
  unfold noneOf in H. simpl in H. apply andb_true_iff in H as [H1 H2].
  apply negb_true_iff in H1.
  rewrite lazyStar_cons, closing_cons, H1, (IH H2).
  destruct (atomMatches Dot c); reflexivity.
Qed.

Lemma skipn_last (x : char) (l : jsstring) :
  exists y, skipn (length l) (x :: l) = [y] /\ In y (x :: l).
Proof.
  revert x; induction l as [|z l IH]; intros x.
  - exists x. simpl. auto.
  - destruct (IH z) as (y & E & Hin). exists y. split.
    + exact E.
    + right; exact Hin.
Qed.

Lemma endsWith_noneOf (d c x : char) (l : jsstring) :
  noneOf d (x :: l) = true -> endsWith (c :: x :: l) [d] = false.
Proof.
  intros H. unfold endsWith. cbn [length Nat.leb andb Nat.sub skipn].
  rewrite ?Nat.sub_0_r.
  destruct (skipn_last x l) as (y & E & Hin). rewrite E.
  unfold noneOf in H. rewrite forallb_forall in H.
  specialize (H y Hin). apply negb_true_iff in H.
  simpl. rewrite H. reflexivity.
Qed.

(** A text that starts with ["* "] or ["- "] and holds no other star and
    no backtick is one list item: the rest of the text, line breaks
    included. *)
Theorem bullet_is_one_item (rest : jsstring) :
  noDelimiter rest = true ->
  renderFormattedText (str "* " ++ rest) = [Li rest]
  /\ renderFormattedText (str "- " ++ rest) = [Li rest].
Proof.
  intros H. split.
  - assert (S1 : splitRegex sectionPattern (str "* " ++ rest)
                 = [str "* " ++ rest]).
    { change (str "* " ++ rest) with (STAR :: 32%N :: rest).
      unfold splitRegex. cbn [splitLoop].
      assert (M : matchAt sectionPattern (STAR :: 32%N :: rest) = None).
      { rewrite sectionPattern_dead_alternatives, matchAt_Alt,
          !spanPattern_match.
        rewrite eqb_char_refl, lazyStar_unclosed; [reflexivity|].
        unfold noDelimiter in H. apply andb_true_iff in H as [H _].
        unfold noneOf in *. simpl. exact H. }
      rewrite M.
      pose proof (@splitLoop_plain (32%N :: rest)
                    (S (S (length (32%N :: rest)))) [STAR] []) as P.
      rewrite app_nil_r in P. cbn [splitLoop] in P.
      replace (2 * length (STAR :: 32%N :: rest))
        with (length (32%N :: rest) + S (S (length (32%N :: rest))))
        by (cbn [length]; unfold char; lia).
      transitivity [rev (rev (32%N :: rest) ++ [STAR])].
      - apply P. unfold noDelimiter, noneOf in *. simpl. exact H.
      - rewrite rev_app_distr, rev_involutive. reflexivity. }
    unfold renderFormattedText. rewrite S1. cbn [map]. f_equal.
    unfold renderSection.
    change (str "* " ++ rest) with (STAR :: 32%N :: rest).
    change (str "**") with [STAR; STAR]. change (str "*") with [STAR].
    change (str "```") with [TICK; TICK; TICK]. change (str "`") with [TICK].
    change (str "* ") with [STAR; 32%N].
    rewrite endsWith_noneOf.
    + reflexivity.
    + unfold noDelimiter in H. apply andb_true_iff in H as [H _].
      unfold noneOf in *. simpl. exact H.
  - assert (P : noDelimiter (str "- " ++ rest) = true).
    { unfold noDelimiter, noneOf in *. simpl. exact H. }
    unfold renderFormattedText. rewrite (splitRegex_plain _ P). reflexivity.
Qed.

(** A list of two dashes: one item that holds the second dash. *)
Lemma bullet_is_one_item_witness :
  let rest := str "one" ++ [LF] ++ str "- two" in
  noDelimiter rest = true
  /\ renderFormattedText (str "- " ++ rest) = [Li rest].
Proof.
  cbv zeta. split; [reflexivity|].
  apply (@bullet_is_one_item (str "one" ++ [LF] ++ str "- two")).
  reflexivity.
Defined.

(** *** Spans *)

(** Text without delimiters, then a span on one line: the split yields
    the text, the span, and the split of what follows. *)
Lemma splitRegex_span (pre mid post : jsstring) (d : char) :
  noDelimiter pre = true -> delimiter d ->
  oneLine mid = true -> noneOf d mid = true ->
  splitRegex sectionPattern (pre ++ d :: mid ++ d :: post)
  = pre :: (d :: mid ++ [d]) :: splitRegex sectionPattern post.
Proof.
  intros Hpre Hd HL HN.
  set (span := d :: mid ++ d :: post).
  assert (E : exists fuel,
            S (2 * length (pre ++ span)) = length pre + S fuel
            /\ 2 * length post + 1 <= fuel).
  { exists (length pre + 2 * length span). unfold span.
    rewrite length_app. cbn [length]. rewrite length_app. cbn [length].
    lia. }
  destruct E as (fuel & Efuel & Hfuel).
  assert (Hne : pre ++ span <> []) by (destruct pre; discriminate).
  assert (U : splitRegex sectionPattern (pre ++ span)
              = splitLoop sectionPattern (S (2 * length (pre ++ span))) []
                  (pre ++ span)).
  { destruct (pre ++ span); [contradiction Hne|]; reflexivity. }
  rewrite U, Efuel, (@splitLoop_plain pre (S fuel) [] span Hpre).
  unfold span. cbn [splitLoop].
  rewrite (@sectionPattern_span d mid post Hd HL HN).
  cbn [Nat.add]. rewrite app_nil_r, rev_involutive.
  change (S (S (length mid))) with (2 + length mid).
  rewrite firstn_span, skipn_span, (splitLoop_splitRegex _ Hfuel).
  reflexivity.
Qed.

Lemma slice_span (d : char) (mid : jsstring) :
  slice (d :: mid ++ [d]) 1 (-1) = mid.
Proof.
  unfold slice, clampIndex. cbn [length]. rewrite length_app. cbn [length].
  change (1 <? 0)%Z with false. change (-1 <? 0)%Z with true. cbv iota.
  match goal with
  | |- firstn ?n (skipn ?m _) = _ =>
      replace m with 1 by lia; replace n with (length mid) by lia
  end.
  cbn [skipn]. rewrite firstn_app, firstn_all, Nat.sub_diag. simpl.
  apply app_nil_r.
Qed.

Lemma endsWith_span (d : char) (mid : jsstring) :
  endsWith (d :: mid ++ [d]) [d] = true.
Proof.
  unfold endsWith. cbn [length]. rewrite length_app. cbn [length Nat.leb andb].
  replace (S (length mid + 1) - 1) with (S (length mid)) by lia.
  cbn [skipn]. rewrite skipn_app, skipn_all, Nat.sub_diag. simpl.
  rewrite eqb_char_refl. reflexivity.
Qed.

(** An italic span: text without delimiters, a star, a non-empty run on
    one line without a star, and a star are rendered as the text, the run
    in [<em>], and the rendering of what follows. *)
Theorem italic_span (pre mid post : jsstring) :
  noDelimiter pre = true ->
  mid <> [] -> oneLine mid = true -> noneOf STAR mid = true ->
  renderFormattedText (pre ++ str "*" ++ mid ++ str "*" ++ post)
  = renderSection pre :: Em mid :: renderFormattedText post.
Proof.
  intros Hpre Hne HL HN. unfold renderFormattedText.
  change (pre ++ str "*" ++ mid ++ str "*" ++ post)
    with (pre ++ STAR :: mid ++ STAR :: post).
  rewrite (@splitRegex_span pre mid post STAR Hpre (or_introl eq_refl) HL HN).
  cbn [map]. do 2 f_equal.
  unfold renderSection.
  change (str "**") with [STAR; STAR]. change (str "*") with [STAR].
  rewrite endsWith_span, slice_span.
  destruct mid as [|x mid]; [contradiction Hne; reflexivity|].
  unfold noneOf in HN. simpl in HN. apply andb_true_iff in HN as [HN _].
  apply negb_true_iff in HN.
  cbn [app startsWith]. rewrite eqb_char_refl, HN. reflexivity.
Qed.

(** The text ["see *this*!"]. *)
Lemma italic_span_witness :
  renderFormattedText (str "see " ++ str "*" ++ str "this" ++ str "*" ++ str "!")
  = [plain (str "see "); Em (str "this"); plain (str "!")].
Proof.
  apply (@italic_span (str "see ") (str "this") (str "!"));
    [reflexivity | discriminate | reflexivity | reflexivity].
Defined.

(** An inline-code span: text without delimiters, a backtick, a run on
    one line without a backtick, empty or not, and a backtick are rendered
    as the text, the run in [<code>], and the rendering of what follows. *)
Theorem inline_code_span (pre mid post : jsstring) :
  noDelimiter pre = true ->
  oneLine mid = true -> noneOf TICK mid = true ->
  renderFormattedText (pre ++ str "`" ++ mid ++ str "`" ++ post)
  = renderSection pre :: Code mid :: renderFormattedText post.
Proof.
  intros Hpre HL HN. unfold renderFormattedText.
  change (pre ++ str "`" ++ mid ++ str "`" ++ post)
    with (pre ++ TICK :: mid ++ TICK :: post).
  rewrite (@splitRegex_span pre mid post TICK Hpre (or_intror eq_refl) HL HN).
  cbn [map]. do 2 f_equal.
  unfold renderSection.
  change (str "**") with [STAR; STAR]. change (str "*") with [STAR].
  change (str "```") with [TICK; TICK; TICK]. change (str "`") with [TICK].
  rewrite endsWith_span, slice_span.
  assert (F : startsWith (TICK :: mid ++ [TICK]) [TICK; TICK; TICK] = false).
  { destruct mid as [|x mid]; [reflexivity|].
    unfold noneOf in HN. simpl in HN. apply andb_true_iff in HN as [HN _].
    apply negb_true_iff in HN.
    cbn [app startsWith]. rewrite eqb_char_refl, HN. reflexivity. }
  rewrite F. reflexivity.
Qed.

(** The text ["run `make` now"]. *)
Lemma inline_code_span_witness :
  renderFormattedText (str "run " ++ str "`" ++ str "make" ++ str "`" ++ str " now")
  = [plain (str "run "); Code (str "make"); plain (str " now")].
Proof.
  apply (@inline_code_span (str "run ") (str "make") (str " now"));
    reflexivity.
Defined.

End RendererProps.

(* ===================================================================== *)
(** ** Further properties of the dispatcher and of the component *)
(* ===================================================================== *)

Module AppProps.
Import JS GeminiService App JSFacts GeminiServiceFacts AppFacts.

(** *** The dispatcher *)

Lemma trimStart_all (s : jsstring) :
  forallb isTrimmed s = true -> trimStart s = [].
Proof.
  induction s as [|c s IH]; [reflexivity|].
  simpl. intros H. apply andb_true_iff in H as [H1 H2].
  rewrite H1. exact (IH H2).
Qed.

Lemma trim_all (s : jsstring) : forallb isTrimmed s = true -> trim s = [].
Proof. intros H. unfold trim. rewrite (trimStart_all _ H). reflexivity. Qed.

(** The boundary is consulted with one request only, the prompt of the
    mode sent to the model ["gemini-2.5-flash"]: two boundaries that agree
    on it give the same result. *)
Theorem processTextWithGemini_one_request (ai1 ai2 : client)
  (text : jsstring) (m : ProcessMode) :
  ai1 {| model := str "gemini-2.5-flash";
         contents := template (directive m) text |}
  = ai2 {| model := str "gemini-2.5-flash";
           contents := template (directive m) text |} ->
  processTextWithGemini ai1 text (Member m)
  = processTextWithGemini ai2 text (Member m).
Proof.
  intros H. rewrite !processTextWithGemini_member. unfold requestFor.
  rewrite H. reflexivity.
Qed.

(** Two boundaries that differ on every other request. *)
Lemma processTextWithGemini_one_request_witness :
  let ai1 : client := resolvingWith (Some (str "ok")) in
  let ai2 : client := fun r =>
    if eqb_str (model r) (str "gemini-2.5-flash")
    then Normal {| response_text := Some (str "ok") |}
    else Throw (OtherValue Null) in
  processTextWithGemini ai1 (str "hello") (Member SIMPLIFY)
  = processTextWithGemini ai2 (str "hello") (Member SIMPLIFY).
Proof.
  cbv zeta. apply processTextWithGemini_one_request. reflexivity.
Defined.

(** The instruction determines the mode and the text. *)
Theorem getPrompt_injective (m m' : ProcessMode) (text text' : jsstring) :
  getPrompt (Member m) text = getPrompt (Member m') text' ->
  m = m' /\ text = text'.
Proof.
  rewrite !getPrompt_member. intros H. inversion H as [E].
  assert (Hm : m = m') by (destruct m, m'; try reflexivity; discriminate).
  subst m'. split; [reflexivity|].
  unfold template in E. apply app_inv_head in E.
  change ([LF; LF] ++ str "---" ++ [LF] ++ text ++ [LF] ++ str "---")
    with (([LF; LF] ++ str "---" ++ [LF]) ++ text ++ [LF] ++ str "---") in E.
  change ([LF; LF] ++ str "---" ++ [LF] ++ text' ++ [LF] ++ str "---")
    with (([LF; LF] ++ str "---" ++ [LF]) ++ text' ++ [LF] ++ str "---") in E.
  apply app_inv_head in E. apply app_inv_tail in E. exact E.
Qed.

(** The same request twice. *)
Lemma getPrompt_injective_witness :
  SUMMARIZE = SUMMARIZE /\ str "hello" = str "hello".
Proof.
  apply (@getPrompt_injective SUMMARIZE SUMMARIZE (str "hello") (str "hello")).
  reflexivity.
Defined.

(** *** [handleProcess] *)

(** With an input of whitespace only, or without an API key, the handler
    reports the error and stops: the boundary is not consulted, and the
    output, the mode and the notes stay as they are. *)
Theorem handleProcess_guards (apiKey : option jsstring) (ai : client)
  (m : ProcessMode) (st : state) :
  (forallb isTrimmed (inputText st) = true ->
   handleProcess apiKey ai m st
   = Normal (setError (str "Please enter some text to process.") st))
  /\ (trim (inputText st) <> [] ->
      apiKey = None \/ apiKey = Some [] ->
      handleProcess apiKey ai m st
      = Normal (setIsLoading false
          (setError (str "API key is not configured. Please set the API_KEY environment variable.") st))).
Proof.
  split.
  - intros H. unfold handleProcess. rewrite (trim_all _ H). reflexivity.
  - intros Ht Hk. unfold handleProcess.
    destruct (trim (inputText st)); [contradiction Ht; reflexivity|].
    destruct Hk as [-> | ->]; reflexivity.
Qed.

(** An input of blanks and a line break; then a real input without a
    key. *)
Lemma handleProcess_guards_witness :
  handleProcess (Some (str "key")) (rejectingWith (OtherValue Null)) SUMMARIZE
    (typed (str "  " ++ [LF]))
  = Normal (setError (str "Please enter some text to process.")
              (typed (str "  " ++ [LF])))
  /\ handleProcess None (rejectingWith (OtherValue Null)) SUMMARIZE
       (typed (str "hello"))
     = Normal (setIsLoading false
         (setError (str "API key is not configured. Please set the API_KEY environment variable.")
            (typed (str "hello")))).
Proof.
  split.
  - apply (proj1 (handleProcess_guards (Some (str "key"))
                    (rejectingWith (OtherValue Null)) SUMMARIZE
                    (typed (str "  " ++ [LF])))).
    reflexivity.
  - apply (proj2 (handleProcess_guards None
                    (rejectingWith (OtherValue Null)) SUMMARIZE
                    (typed (str "hello")))).
    + discriminate.
    + left; reflexivity.
Defined.

(** The service resolves whatever the boundary does. *)
Lemma processTextWithGemini_resolves (ai : client) (text : jsstring)
  (m : ProcessMode) :
  exists result, processTextWithGemini ai text (Member m) = Normal result.
Proof.
  rewrite processTextWithGemini_member.
  destruct (ai _) as [[[[|c t]|]]|[message|v]]; eexists; reflexivity.
Qed.

(** What the handler leaves alone. *)
Lemma handleProcess_keeps (apiKey : option jsstring) (ai : client)
  (m : ProcessMode) (st st' : state) :
  handleProcess apiKey ai m st = Normal st' ->
  inputText st' = inputText st
  /\ savedNotes st' = savedNotes st
  /\ storage st' = storage st
  /\ toasts st' = toasts st.
Proof.
  unfold handleProcess.
  destruct (isEmpty (trim (inputText st))).
  - intros H; inversion H; subst st'. repeat split.
  - destruct apiKey as [[|k key]|];
      try (intros H; inversion H; subst st'; repeat split; fail).
    destruct (processTextWithGemini ai (inputText st) (Member m)) as [r|e];
      cbn [bind]; [|discriminate].
    destruct (startsWith r (str "An error occurred:"));
      intros H; inversion H; subst st'; repeat split.
Qed.

(** The handler always completes.  It leaves the input, the notes, the
    store and the toasts as they are.  With a blank input the busy flag
    is what it was; with any other input it is off at the end, whatever
    it was and whatever the boundary did. *)
Theorem handleProcess_frame (apiKey : option jsstring) (ai : client)
  (m : ProcessMode) (st : state) :
  exists st',
    handleProcess apiKey ai m st = Normal st'
    /\ inputText st' = inputText st
    /\ savedNotes st' = savedNotes st
    /\ storage st' = storage st
    /\ toasts st' = toasts st
    /\ isLoading st'
       = (if isEmpty (trim (inputText st)) then isLoading st else false).
Proof.
  assert (T : exists st',
            handleProcess apiKey ai m st = Normal st'
            /\ isLoading st'
               = (if isEmpty (trim (inputText st)) then isLoading st
                  else false)).
  { unfold handleProcess.
    destruct (isEmpty (trim (inputText st))).
    - eexists; split; reflexivity.
    - destruct apiKey as [[|k key]|];
        try (eexists; split; reflexivity).
      destruct (processTextWithGemini_resolves ai (inputText st) m) as [r E].
      rewrite E. cbn [bind].
      eexists; split; reflexivity. }
  destruct T as (st' & E & L).
  destruct (handleProcess_keeps _ _ _ _ E) as (H1 & H2 & H3 & H4).
  exists st'. auto 10.
Qed.

(** When the boundary rejects with an [Error], the handler shows the
    prefixed message as the error and the output is empty, whatever it
    was before; saving then does nothing. *)
Theorem handleProcess_error (key : jsstring) (ai : client) (m : ProcessMode)
  (st : state) (message : jsstring) (now : N) (localeNow : jsstring)
  (toastNow : N) :
  key <> [] ->
  trim (inputText st) <> [] ->
  ai (requestFor (template (directive m) (inputText st)))
  = Throw (ErrorObject message) ->
  exists st',
    handleProcess (Some key) ai m st = Normal st'
    /\ error st' = str "An error occurred: " ++ message
    /\ outputText st' = []
    /\ handleSaveNote now localeNow toastNow st' = st'.
Proof.
  intros Hk Ht Hai.
  pose proof (processTextWithGemini_Error ai (inputText st) m Hai) as E.
  destruct (@handleProcess_result key ai m st _ Hk Ht E)
    as (st' & H & _ & _ & _ & R).
  assert (P : startsWith (errorPrefix ++ str " " ++ message) errorPrefix = true)
    by (apply startsWith_app; eexists; reflexivity).
  rewrite P in R. destruct R as [R1 R2].
  exists st'. split; [exact H|]. split; [exact R1|]. split; [exact R2|].
  unfold handleSaveNote. rewrite R2. reflexivity.
Qed.

(** The boundary rejects with [Error('quota exceeded')] while an earlier
    result is on display. *)
Lemma handleProcess_error_witness :
  exists st',
    handleProcess (Some (str "key"))
      (rejectingWith (ErrorObject (str "quota exceeded"))) KEY_POINTS
      (setOutputText (str "an earlier result") (typed (str "hello")))
    = Normal st'
    /\ error st' = str "An error occurred: quota exceeded"
    /\ outputText st' = []
    /\ handleSaveNote 1 (str "now") 2 st' = st'.
Proof.
  apply (@handleProcess_error (str "key")
           (rejectingWith (ErrorObject (str "quota exceeded"))) KEY_POINTS
           (setOutputText (str "an earlier result") (typed (str "hello")))
           (str "quota exceeded") 1 (str "now") 2);
    [discriminate | discriminate | reflexivity].
Defined.

(** A payload of whitespace only is not taken for an empty response: the
    test comes before [trim], so the service resolves with the empty
    string, and the handler shows neither an output nor an error; saving
    then does nothing. *)
Theorem whitespace_payload_is_empty_output (key : jsstring) (ai : client)
  (m : ProcessMode) (st : state) (payload : jsstring) (now : N)
  (localeNow : jsstring) (toastNow : N) :
  key <> [] ->
  trim (inputText st) <> [] ->
  ai (requestFor (template (directive m) (inputText st)))
  = Normal {| response_text := Some payload |} ->
  payload <> [] ->
  forallb isTrimmed payload = true ->
  processTextWithGemini ai (inputText st) (Member m) = Normal []
  /\ exists st',
       handleProcess (Some key) ai m st = Normal st'
       /\ outputText st' = [] /\ error st' = []
       /\ handleSaveNote now localeNow toastNow st' = st'.
Proof.
  intros Hk Ht Hai Hne Hws.
  assert (E : processTextWithGemini ai (inputText st) (Member m) = Normal []).
  { rewrite processTextWithGemini_member, Hai.
    destruct payload as [|c t]; [contradiction Hne; reflexivity|].
    rewrite (trim_all _ Hws). reflexivity. }
  split; [exact E|].
  destruct (@handleProcess_result key ai m st _ Hk Ht E)
    as (st' & H & _ & _ & _ & R).
  change (startsWith [] errorPrefix) with false in R. destruct R as [R1 R2].
  exists st'. split; [exact H|]. split; [exact R2|]. split; [exact R1|].
  unfold handleSaveNote. rewrite R2. reflexivity.
Qed.

(** The boundary resolves with two blanks and a line break. *)
Lemma whitespace_payload_is_empty_output_witness :
  processTextWithGemini (resolvingWith (Some (str "  " ++ [LF])))
    (str "hello") (Member SUMMARIZE)
  = Normal [].
Proof.
  apply (@whitespace_payload_is_empty_output (str "key")
           (resolvingWith (Some (str "  " ++ [LF]))) SUMMARIZE
           (typed (str "hello")) (str "  " ++ [LF]) 1 (str "now") 2);
    [discriminate | discriminate | reflexivity | discriminate | reflexivity].
Defined.

(** A response whose trimmed text starts with ["An error occurred:"] is
    shown as an error, not as output: the prefix is all the handler looks
    at. *)
Theorem response_with_prefix_is_shown_as_error (key : jsstring)
  (ai : client) (m : ProcessMode) (st : state) (payload : jsstring) :
  key <> [] ->
  trim (inputText st) <> [] ->
  ai (requestFor (template (directive m) (inputText st)))
  = Normal {| response_text := Some payload |} ->
  startsWith (trim payload) errorPrefix = true ->
  exists st',
    handleProcess (Some key) ai m st = Normal st'
    /\ error st' = trim payload /\ outputText st' = [].
Proof.
  intros Hk Ht Hai Hp.
  assert (Hne : payload <> []).
  { intros ->. discriminate Hp. }
  assert (E : processTextWithGemini ai (inputText st) (Member m)
              = Normal (trim payload)).
  { rewrite processTextWithGemini_member, Hai.
    destruct payload; [contradiction Hne|]; reflexivity. }
  destruct (@handleProcess_result key ai m st _ Hk Ht E)
    as (st' & H & _ & _ & _ & R).
  rewrite Hp in R. exists st'. tauto.
Qed.

(** The model answers with a sentence that starts with the prefix. *)
Lemma response_with_prefix_is_shown_as_error_witness :
  exists st',
    handleProcess (Some (str "key"))
      (resolvingWith (Some (str "An error occurred: a phrase of the text")))
      SUMMARIZE (typed (str "hello"))
    = Normal st'
    /\ error st' = str "An error occurred: a phrase of the text"
    /\ outputText st' = [].
Proof.
  apply (@response_with_prefix_is_shown_as_error (str "key")
           (resolvingWith (Some (str "An error occurred: a phrase of the text")))
           SUMMARIZE (typed (str "hello"))
           (str "An error occurred: a phrase of the text"));
    [discriminate | discriminate | reflexivity | reflexivity].
Defined.

(** Processing and then saving: the note holds the input, the trimmed
    response and the mode, it stands in front of the earlier notes, and
    the store holds the new collection.  The input of the note is the
    input at the time of saving: when the text was edited after the run,
    the note pairs the edited text with the response to the earlier one. *)
Theorem process_then_save (key : jsstring) (ai : client) (m : ProcessMode)
  (st : state) (payload edited : jsstring) (now : N) (localeNow : jsstring)
  (toastNow : N) :
  key <> [] ->
  trim (inputText st) <> [] ->
  ai (requestFor (template (directive m) (inputText st)))
  = Normal {| response_text := Some payload |} ->
  trim payload <> [] ->
  startsWith (trim payload) errorPrefix = false ->
  exists st',
    handleProcess (Some key) ai m st = Normal st'
    /\ outputText st' = trim payload /\ error st' = []
    /\ savedNotes (handleSaveNote now localeNow toastNow st')
       = {| id := numberToString now; input := inputText st;
            output := trim payload; mode := m; timestamp := localeNow |}
         :: savedNotes st
    /\ storage (handleSaveNote now localeNow toastNow st')
       = Some (savedNotes (handleSaveNote now localeNow toastNow st'))
    /\ savedNotes (handleSaveNote now localeNow toastNow
                     (setInputText edited st'))
       = {| id := numberToString now; input := edited;
            output := trim payload; mode := m; timestamp := localeNow |}
         :: savedNotes st.
Proof.
  intros Hk Ht Hai Hout Hp.
  assert (Hne : payload <> []).
  { intros ->. apply Hout. reflexivity. }
  assert (E : processTextWithGemini ai (inputText st) (Member m)
              = Normal (trim payload)).
  { rewrite processTextWithGemini_member, Hai.
    destruct payload; [contradiction Hne|]; reflexivity. }
  destruct (@handleProcess_result key ai m st _ Hk Ht E)
    as (st' & H & Hm & Hs & _ & R).
  rewrite Hp in R. destruct R as [R1 R2].
  destruct (handleProcess_keeps _ _ _ _ H) as (Hi & _).
  exists st'. split; [exact H|]. split; [exact R2|]. split; [exact R1|].
  unfold handleSaveNote. cbn [outputText currentMode setInputText].
  rewrite R2, Hm. destruct (trim payload) eqn:T;
    [contradiction Hout; reflexivity|].
  cbn. rewrite ?Hs, ?Hi, ?R2. repeat split; reflexivity.
Qed.

(** Summarizing "hello", then saving, with and without an edit of the
    input in between. *)
Lemma process_then_save_witness :
  exists st',
    handleProcess (Some (str "key")) (resolvingWith (Some (str " A summary. ")))
      SUMMARIZE (typed (str "hello"))
    = Normal st'
    /\ outputText st' = str "A summary." /\ error st' = []
    /\ savedNotes (handleSaveNote 1700000000123 (str "now") 1700000000124 st')
       = [{| id := str "1700000000123"; input := str "hello";
             output := str "A summary."; mode := SUMMARIZE;
             timestamp := str "now" |}]
    /\ storage (handleSaveNote 1700000000123 (str "now") 1700000000124 st')
       = Some (savedNotes
                 (handleSaveNote 1700000000123 (str "now") 1700000000124 st'))
    /\ savedNotes (handleSaveNote 1700000000123 (str "now") 1700000000124
                     (setInputText (str "bye") st'))
       = [{| id := str "1700000000123"; input := str "bye";
             output := str "A summary."; mode := SUMMARIZE;
             timestamp := str "now" |}].
Proof.
  apply (@process_then_save (str "key")
           (resolvingWith (Some (str " A summary. "))) SUMMARIZE
           (typed (str "hello")) (str " A summary. ") (str "bye")
           1700000000123 (str "now") 1700000000124);
    [discriminate | discriminate | reflexivity | discriminate | reflexivity].
Defined.

(** *** Saved notes *)

Lemma savedNotes_handleDeleteNote (noteId : jsstring) (toastNow : N)
  (st : state) :
  savedNotes (handleDeleteNote noteId toastNow st)
  = filter (fun note => negb (eqb_str (id note) noteId)) (savedNotes st).
Proof. reflexivity. Qed.

(** Deleting keeps exactly the notes with another identifier, each as
    often as it occurred and in their order: what is left of a collection
    is what is left of its front followed by what is left of its back, a
    note with the identifier goes and a note with another one stays where
    it is.  With an identifier that no note has, the notes stay as they
    are, and the toast "Note deleted" is shown all the same. *)
Theorem handleDeleteNote_keeps_others (noteId : jsstring) (toastNow : N)
  (st : state) :
  savedNotes (handleDeleteNote noteId toastNow st)
  = filter (fun note => negb (eqb_str (id note) noteId)) (savedNotes st)
  /\ (forall front note back,
        savedNotes st = front ++ note :: back ->
        savedNotes (handleDeleteNote noteId toastNow st)
        = filter (fun other => negb (eqb_str (id other) noteId)) front
          ++ (if eqb_str (id note) noteId then [] else [note])
          ++ filter (fun other => negb (eqb_str (id other) noteId)) back)
  /\ (forall note,
        In note (savedNotes (handleDeleteNote noteId toastNow st))
        <-> In note (savedNotes st) /\ id note <> noteId)
  /\ (~ In noteId (map id (savedNotes st)) ->
      savedNotes (handleDeleteNote noteId toastNow st) = savedNotes st)
  /\ toasts (handleDeleteNote noteId toastNow st)
     = toasts st ++ [{| toastId := toastNow; message := str "Note deleted" |}].
Proof.
  split; [|split; [|split; [|split]]].
  - apply savedNotes_handleDeleteNote.
  - intros front note back Hs.
    rewrite savedNotes_handleDeleteNote, Hs, filter_app. cbn [filter].
    destruct (eqb_str (id note) noteId); reflexivity.
  - intros note. rewrite savedNotes_handleDeleteNote, filter_In.
    rewrite negb_true_iff. split; intros [H1 H2]; split; auto.
    + intros E. apply eqb_str_eq in E. congruence.
    + destruct (eqb_str (id note) noteId) eqn:E; [|reflexivity].
      apply eqb_str_eq in E. contradiction.
  - intros Hn. rewrite savedNotes_handleDeleteNote.
    apply filter_other_ids. intros other Hin E. apply Hn.
    rewrite <- E. apply in_map. exact Hin.
  - reflexivity.
Qed.

(** Deleting an identifier that no note has. *)
Lemma handleDeleteNote_keeps_others_witness :
  savedNotes (handleDeleteNote (str "42") 7 afterSuccess)
  = savedNotes afterSuccess.
Proof.
  apply (proj1 (proj2 (proj2 (proj2 (handleDeleteNote_keeps_others (str "42") 7
                         afterSuccess))))).
  intros [H|[]]. discriminate H.
Defined.

Lemma digits_injective (u v : Decimal.uint) : digits u = digits v -> u = v.
Proof.
  revert v; induction u; intros v H; destruct v; simpl in H;
    try discriminate; try reflexivity;
    inversion H as [E]; f_equal; apply IHu; exact E.
Qed.

(** Two readings of the clock give the same identifier only when they are
    the same reading. *)
Theorem numberToString_injective (a b : N) :
  eqb_str (numberToString a) (numberToString b) = N.eqb a b.
Proof.
  destruct (N.eqb_spec a b) as [->|Hne].
  - apply eqb_str_eq. reflexivity.
  - destruct (eqb_str (numberToString a) (numberToString b)) eqn:E;
      [|reflexivity].
    apply eqb_str_eq in E. unfold numberToString in E.
    apply digits_injective, Unsigned.to_uint_inj in E. contradiction.
Qed.

(** Dropping notes keeps the identifiers distinct. *)
Lemma distinct_ids_filter (keep : SavedNote -> bool) (notes : list SavedNote) :
  NoDup (map id notes) -> NoDup (map id (filter keep notes)).
Proof.
  intros Hnd. induction notes as [|note notes IH]; [constructor|].
  cbn [map] in Hnd. apply NoDup_cons_iff in Hnd as [Hfresh Hrest].
  cbn [filter]. destruct (keep note); [|exact (IH Hrest)].
  cbn [map]. apply NoDup_cons; [|exact (IH Hrest)].
  intros Hin. apply Hfresh.
  apply in_map_iff in Hin as (other & Eid & Hother).
  apply filter_In in Hother as [Hother _].
  rewrite <- Eid. apply in_map. exact Hother.
Qed.

(** With a clock that moves on between two saves, the identifiers of the
    notes stay distinct: saving at [now] and deleting keep them distinct
    and earlier than any later reading; then deleting an identifier that
    a note has removes one note and no more. *)
Theorem identifiers_stay_distinct (now later : N) (localeNow : jsstring)
  (toastNow : N) (noteId : jsstring) (st : state) :
  idsBefore now st ->
  (now < later)%N ->
  idsBefore later (handleSaveNote now localeNow toastNow st)
  /\ idsBefore now (handleDeleteNote noteId toastNow st)
  /\ (In noteId (map id (savedNotes st)) ->
      S (length (savedNotes (handleDeleteNote noteId toastNow st)))
      = length (savedNotes st)).
Proof.
  intros [Hnd Hall] Hlt. split; [|split].
  - assert (Hweak : Forall (fun note => exists t, (t < later)%N
                                          /\ id note = numberToString t)
                      (savedNotes st)).
    { rewrite Forall_forall in *. intros note Hin.
      destruct (Hall note Hin) as (t & Ht & E). exists t. split; [lia|exact E]. }
    unfold handleSaveNote.
    destruct (outputText st); [split; assumption|].
    destruct (currentMode st); [|split; assumption].
    split; cbn.
    + constructor; [|exact Hnd].
      intros Hin. apply in_map_iff in Hin as (note & E & Hin).
      rewrite Forall_forall in Hall.
      destruct (Hall note Hin) as (t & Ht & E').
      rewrite E' in E. unfold numberToString in E.
      apply digits_injective, Unsigned.to_uint_inj in E. lia.
    + constructor; [|exact Hweak]. exists now. split; [exact Hlt|reflexivity].
  - unfold idsBefore. rewrite savedNotes_handleDeleteNote. split.
    + apply distinct_ids_filter. exact Hnd.
    + rewrite Forall_forall in *. intros note Hin.
      apply filter_In in Hin as [Hin _]. auto.
  - intros Hin. rewrite savedNotes_handleDeleteNote.
    clear Hall. induction (savedNotes st) as [|x l IH]; [contradiction|].
    simpl in *. inversion Hnd as [|? ? Hn Hd]; subst.
    destruct (eqb_str (id x) noteId) eqn:E.
    + apply eqb_str_eq in E. simpl. f_equal.
      rewrite filter_other_ids; [reflexivity|].
      intros other Ho Eo. apply Hn. rewrite E, <- Eo. apply in_map. exact Ho.
    + simpl. f_equal. apply IH; [exact Hd|].
      destruct Hin as [Hin|Hin]; [|exact Hin].
      exfalso. assert (T : eqb_str (id x) noteId = true)
        by (apply eqb_str_eq; exact Hin).
      congruence.
Qed.

(** The one note of [afterSuccess] was saved before the reading
    [1700000000123]. *)
Lemma afterSuccess_idsBefore : idsBefore 1700000000123 afterSuccess.
Proof.
  split.
  - simpl. constructor; [intros []|constructor].
  - constructor; [|constructor].
    exists 1700000000000%N. split; [reflexivity | vm_compute; reflexivity].
Defined.

(** Saving at a later reading, and deleting the older note. *)
Lemma identifiers_stay_distinct_witness :
  idsBefore 1700000000200
    (handleSaveNote 1700000000123 (str "now") 1700000000124 afterSuccess)
  /\ idsBefore 1700000000123
       (handleDeleteNote (str "1700000000000") 1700000000124 afterSuccess)
  /\ S (length (savedNotes (handleDeleteNote (str "1700000000000")
                              1700000000124 afterSuccess)))
     = length (savedNotes afterSuccess).
Proof.
  destruct (@identifiers_stay_distinct 1700000000123 1700000000200
              (str "now") 1700000000124 (str "1700000000000") afterSuccess
              afterSuccess_idsBefore eq_refl) as (H1 & H2 & H3).
  split; [exact H1|]. split; [exact H2|].
  apply H3. left. reflexivity.
Defined.

(** *** The store *)

(** The slot of the store follows the notes: a state in which it holds
    them keeps holding them through processing, saving, toasts and
    sharing, and after a delete or the first render it holds them
    whatever it held before. *)
Theorem store_follows_notes (st : state) (apiKey : option jsstring)
  (ai : client) (m : ProcessMode) (now : N) (localeNow : jsstring)
  (toastNow : N) (noteId text title : jsstring) (nav : Navigator)
  (calls : list call) (stored : option (list SavedNote)) :
  (inSync st ->
   (forall st', handleProcess apiKey ai m st = Normal st' -> inSync st')
   /\ inSync (handleSaveNote now localeNow toastNow st)
   /\ inSync (showToast toastNow text st)
   /\ inSync (expireToast toastNow st)
   /\ inSync (fst (handleShare nav toastNow text title (st, calls))))
  /\ inSync (handleDeleteNote noteId toastNow st)
  /\ inSync (mount stored).
Proof.
  split; [|split].
  - intros H. split; [|split; [|split; [|split]]].
    + intros st' E.
      destruct (handleProcess_keeps _ _ _ _ E) as (_ & Hs & Hst & _).
      unfold inSync in *. rewrite Hst, Hs. exact H.
    + unfold handleSaveNote.
      destruct (outputText st); [exact H|].
      destruct (currentMode st); [reflexivity | exact H].
    + exact H.
    + exact H.
    + unfold handleShare, handleCopyToClipboard.
      destruct (share nav) as [f|]; cbn [fst snd].
      * destruct (f _); [exact H|].
        destruct (writeText nav text); exact H.
      * destruct (writeText nav text); exact H.
  - reflexivity.
  - destruct stored; reflexivity.
Qed.

(** Saving and sharing from a state whose slot holds its notes. *)
Lemma store_follows_notes_witness :
  inSync (handleSaveNote 1700000000123 (str "now") 1700000000124 afterSuccess)
  /\ inSync (fst (handleShare browserWithoutShare 5 (str "text") (str "title")
                    (afterSuccess, []))).
Proof.
  destruct (proj1 (@store_follows_notes afterSuccess (Some (str "key"))
                     (rejectingWith (OtherValue Null)) SUMMARIZE
                     1700000000123 (str "now") 1700000000124 (str "x")
                     (str "text") (str "title") browserWithoutShare [] None)
              eq_refl) as (_ & H1 & _ & _ & H2).
  split; [exact H1|].
  destruct (proj1 (@store_follows_notes afterSuccess (Some (str "key"))
                     (rejectingWith (OtherValue Null)) SUMMARIZE
                     1700000000123 (str "now") 5 (str "x")
                     (str "text") (str "title") browserWithoutShare [] None)
              eq_refl) as (_ & _ & _ & _ & H3).
  exact H3.
Defined.

(** The first render restores the notes of the slot, or starts with none
    when the slot is absent; the write of the empty collection by the
    effect of the first render is overwritten by the notes restored.  So
    the notes that a save or a delete left in the store are the notes of
    the next session. *)
Theorem mount_restores_notes (stored : option (list SavedNote))
  (st : state) (now : N) (localeNow : jsstring) (toastNow : N)
  (noteId : jsstring) :
  savedNotes (mount stored) = match stored with Some l => l | None => [] end
  /\ storage (mount stored) = Some (savedNotes (mount stored))
  /\ outputText (mount stored) = [] /\ currentMode (mount stored) = None
  /\ savedNotes (mount (storage (handleDeleteNote noteId toastNow st)))
     = savedNotes (handleDeleteNote noteId toastNow st)
  /\ (outputText st <> [] -> currentMode st <> None ->
      savedNotes (mount (storage (handleSaveNote now localeNow toastNow st)))
      = savedNotes (handleSaveNote now localeNow toastNow st)).
Proof.
  split; [|split; [|split; [|split; [|split]]]];
    try (destruct stored; reflexivity).
  intros Ho Hm. unfold handleSaveNote.
  destruct (outputText st); [contradiction Ho; reflexivity|].
  destruct (currentMode st); [reflexivity | contradiction Hm; reflexivity].
Qed.

(** Saving, then rendering afresh from the slot. *)
Lemma mount_restores_notes_witness :
  savedNotes (mount (storage (handleSaveNote 1700000000123 (str "now")
                                1700000000124 afterSuccess)))
  = savedNotes (handleSaveNote 1700000000123 (str "now") 1700000000124
                  afterSuccess).
Proof.
  apply (@mount_restores_notes None afterSuccess 1700000000123 (str "now")
           1700000000124 (str "x")); discriminate.
Defined.

(** *** Toasts and sharing *)

(** The timer of a toast removes every toast with its identifier and no
    other; when no earlier toast was shown at the same reading of the
    clock, showing a toast and letting its timer run gives back the
    toasts as they were. *)
Theorem toast_expires (now : N) (msg : jsstring) (st : state) :
  (forall t, In t (toasts (expireToast now st))
             <-> In t (toasts st) /\ toastId t <> now)
  /\ toasts (expireToast now (showToast now msg st))
     = toasts (expireToast now st)
  /\ (Forall (fun t => toastId t <> now) (toasts st) ->
      toasts (expireToast now (showToast now msg st)) = toasts st).
Proof.
  assert (E : toasts (expireToast now (showToast now msg st))
              = toasts (expireToast now st)).
  { cbn. rewrite filter_app. simpl. rewrite N.eqb_refl. simpl.
    apply app_nil_r. }
  split; [|split].
  - intros t. cbn. rewrite filter_In, negb_true_iff, N.eqb_neq. tauto.
  - exact E.
  - intros H. rewrite E. cbn.
    induction (toasts st) as [|t l IH]; [reflexivity|].
    inversion H; subst. simpl.
    destruct (N.eqb_spec (toastId t) now) as [C|C]; [contradiction|].
    simpl. f_equal. auto.
Qed.

(** Two toasts shown at different readings; the timer of the second
    runs. *)
Lemma toast_expires_witness :
  toasts (expireToast 9 (showToast 9 (str "Note saved!")
                           (showToast 5 (str "Copied to clipboard!")
                              afterSuccess)))
  = [{| toastId := 5%N; message := str "Copied to clipboard!" |}].
Proof.
  apply (proj2 (proj2 (toast_expires 9 (str "Note saved!")
                         (showToast 5 (str "Copied to clipboard!")
                            afterSuccess)))).
  constructor; [discriminate | constructor].
Defined.

(** Sharing falls back to the clipboard.  When [navigator.share] resolves,
    nothing is copied and no toast is shown.  When it is absent or
    rejects, the text is written to the clipboard, and the toast
    "Copied to clipboard!" is shown if the write resolves and not if it
    rejects. *)
Theorem handleShare_falls_back (nav : Navigator) (toastNow : N)
  (text title : jsstring) (st : state) (calls : list call) :
  let data := {| shareTitle := title; shareText := text |} in
  let copied :=
    {| toastId := toastNow; message := str "Copied to clipboard!" |} in
  (forall f, share nav = Some f -> f data = Normal tt ->
     handleShare nav toastNow text title (st, calls)
     = (st, calls ++ [ShareCall data]))
  /\ (forall f e, share nav = Some f -> f data = Throw e ->
        writeText nav text = Normal tt ->
        handleShare nav toastNow text title (st, calls)
        = (setToasts (fun prev => prev ++ [copied]) st,
           calls ++ [ShareCall data; WriteTextCall text]))
  /\ (share nav = None ->
      writeText nav text = Normal tt ->
      handleShare nav toastNow text title (st, calls)
      = (setToasts (fun prev => prev ++ [copied]) st,
         calls ++ [WriteTextCall text]))
  /\ (forall e, writeText nav text = Throw e ->
        fst (handleShare nav toastNow text title (st, calls)) = st).
Proof.
  cbv zeta. unfold handleShare, handleCopyToClipboard.
  split; [|split; [|split]].
  - intros f Hs Hf. rewrite Hs, Hf. reflexivity.
  - intros f e Hs Hf Hw. rewrite Hs, Hf. cbn [fst snd]. rewrite Hw.
    rewrite <- app_assoc. reflexivity.
  - intros Hs Hw. rewrite Hs, Hw. reflexivity.
  - intros e Hw. destruct (share nav) as [f|]; cbn [fst snd].
    + destruct (f _); [reflexivity|]. rewrite Hw. reflexivity.
    + rewrite Hw. reflexivity.
Qed.

(** A browser without the Web Share API. *)
Lemma handleShare_falls_back_witness :
  handleShare browserWithoutShare 5 (str "A summary.") (str "Result")
    (afterSuccess, [])
  = (setToasts (fun prev => prev ++
                  [{| toastId := 5%N;
                      message := str "Copied to clipboard!" |}])
       afterSuccess,
     [WriteTextCall (str "A summary.")]).
Proof.
  apply (proj1 (proj2 (proj2 (@handleShare_falls_back browserWithoutShare 5
                                (str "A summary.") (str "Result")
                                afterSuccess []))));
    reflexivity.
Defined.

End AppProps.
